(** * SkinningDemo: pose evaluation, pose blending and linear-blend skinning

    A shallow embedding of [SkinningDemo/main.cpp] and [skeletal_mesh.h].

    - Host-side [float] values are IEEE-754 binary32 numbers, computed with
      the reference operations of the standard library's [SpecFloat]
      (round to nearest, ties to even).
    - GLM's vector and matrix types are templates over the scalar type; they
      are embedded once, parametrically in a [Scalar] interface, and used at
      binary32 on the host and at exact rationals for the vertex shader,
      whose rounding GLSL 3.30 leaves to the implementation.
    - A [JointPose*] is a byte offset inside one of the two global objects
      that hold joints: the array [poses] and [current_pose]. *)

From Stdlib Require Import ZArith List Bool Lia String.
From Stdlib Require Import QArith Qcanon.
From Stdlib Require Import SpecFloat.
Import ListNotations.

Local Open Scope Z_scope.

(* ------------------------------------------------------------------ *)
(** ** IEEE-754 binary32 *)

Module Binary32.

Definition prec : Z := 24.
Definition emax : Z := 128.

(** The C++ type [float]. *)
Definition float : Type := spec_float.

Definition valid (x : float) : bool := valid_binary prec emax x.

Definition fadd : float -> float -> float := SFadd prec emax.
Definition fsub : float -> float -> float := SFsub prec emax.
Definition fmul : float -> float -> float := SFmul prec emax.
Definition fdiv : float -> float -> float := SFdiv prec emax.
Definition fsqrt : float -> float := SFsqrt prec emax.

(** [a == b] and [a != b]; a NaN is different from everything. *)
Definition feqb : float -> float -> bool := SFeqb.
Definition fneb (a b : float) : bool := negb (SFeqb a b).

(** Conversion of an [int] to [float]. *)
Definition of_int (n : Z) : float := binary_normalize prec emax n 0 false.

(** A literal with the [f] suffix: the decimal [n / d] rounded once. *)
Definition flit (n : Z) (d : positive) : float :=
    fdiv (of_int n) (of_int (Zpos d)).

(** A [double] literal: the decimal [n / d] rounded to binary64. *)
Definition dlit (n : Z) (d : positive) : spec_float :=
    SFdiv 53 1024 (binary_normalize 53 1024 n 0 false)
                  (binary_normalize 53 1024 (Zpos d) 0 false).

(** Conversion of a [double] to [float] (GLM's [vec2(double, double)]). *)
Definition narrow (x : spec_float) : float :=
    match x with
    | S754_finite s m e => binary_round prec emax s m e
    | _ => x
    end.

Definition fzero : float := S754_zero false.
Definition fone : float := S754_finite false 8388608 (-23).

Definition is_finite (x : float) : bool :=
    match x with
    | S754_zero _ | S754_finite _ _ _ => true
    | _ => false
    end.

Definition is_neg_zero (x : float) : bool :=
    match x with
    | S754_zero true => true
    | _ => false
    end.

End Binary32.

(* ------------------------------------------------------------------ *)
(** ** Scalars, vectors and matrices (GLM) *)

Class Scalar (T : Type) : Type := {
  szero : T;
  sone : T;
  sadd : T -> T -> T;
  ssub : T -> T -> T;
  smul : T -> T -> T;
  sdiv : T -> T -> T
}.

Declare Scope scalar_scope.
Delimit Scope scalar_scope with S.
Infix "+" := sadd : scalar_scope.
Infix "-" := ssub : scalar_scope.
Infix "*" := smul : scalar_scope.
Infix "/" := sdiv : scalar_scope.

#[export] Instance Scalar_float : Scalar Binary32.float := {
  szero := Binary32.fzero;
  sone := Binary32.fone;
  sadd := Binary32.fadd;
  ssub := Binary32.fsub;
  smul := Binary32.fmul;
  sdiv := Binary32.fdiv
}.

#[export] Instance Scalar_Qc : Scalar Qc := {
  szero := 0%Qc;
  sone := 1%Qc;
  sadd := Qcplus;
  ssub := Qcminus;
  smul := Qcmult;
  sdiv := Qcdiv
}.

Record vec2 (T : Type) : Type := Vec2 { x2 : T; y2 : T }.
Record vec3 (T : Type) : Type := Vec3 { x3 : T; y3 : T; z3 : T }.
Record vec4 (T : Type) : Type := Vec4 { vx : T; vy : T; vz : T; vw : T }.

(** [mat4] is column-major: [col0 m] is [m[0]]. *)
Record mat4 (T : Type) : Type :=
  Mat4 { col0 : vec4 T; col1 : vec4 T; col2 : vec4 T; col3 : vec4 T }.

Arguments Vec2 {T} _ _.
Arguments x2 {T} _.
Arguments y2 {T} _.
Arguments Vec3 {T} _ _ _.
Arguments x3 {T} _.
Arguments y3 {T} _.
Arguments z3 {T} _.
Arguments Vec4 {T} _ _ _ _.
Arguments vx {T} _.
Arguments vy {T} _.
Arguments vz {T} _.
Arguments vw {T} _.
Arguments Mat4 {T} _ _ _ _.
Arguments col0 {T} _.
Arguments col1 {T} _.
Arguments col2 {T} _.
Arguments col3 {T} _.

Module Glm.
Section Generic.
Context {T : Type} `{Scalar T}.
Local Open Scope scalar_scope.

(** [vec2 * scalar], [vec2 + vec2]. *)
Definition v2_scale (v : vec2 T) (s : T) : vec2 T :=
    Vec2 (x2 v * s) (y2 v * s).
Definition v2_add (a b : vec2 T) : vec2 T :=
    Vec2 (x2 a + x2 b) (y2 a + y2 b).

(** [vec4 * scalar], [scalar * vec4], [vec4 + vec4]. *)
Definition v4_scale (v : vec4 T) (s : T) : vec4 T :=
    Vec4 (vx v * s) (vy v * s) (vz v * s) (vw v * s).
Definition v4_lscale (s : T) (v : vec4 T) : vec4 T :=
    Vec4 (s * vx v) (s * vy v) (s * vz v) (s * vw v).
Definition v4_add (a b : vec4 T) : vec4 T :=
    Vec4 (vx a + vx b) (vy a + vy b) (vz a + vz b) (vw a + vw b).
Definition v4_zero : vec4 T := Vec4 szero szero szero szero.

(** [vec4(v, z, w)] from a [vec2]. *)
Definition v4_of_v2 (v : vec2 T) (z w : T) : vec4 T :=
    Vec4 (x2 v) (y2 v) z w.

(** The default-constructed [mat4]: the identity. *)
Definition mat4_identity : mat4 T :=
    Mat4 (Vec4 sone szero szero szero)
         (Vec4 szero sone szero szero)
         (Vec4 szero szero sone szero)
         (Vec4 szero szero szero sone).

(** [mat4 * vec4]. *)
Definition mat4_mul_vec (m : mat4 T) (v : vec4 T) : vec4 T :=
    Vec4
      (vx (col0 m) * vx v + vx (col1 m) * vy v + vx (col2 m) * vz v + vx (col3 m) * vw v)
      (vy (col0 m) * vx v + vy (col1 m) * vy v + vy (col2 m) * vz v + vy (col3 m) * vw v)
      (vz (col0 m) * vx v + vz (col1 m) * vy v + vz (col2 m) * vz v + vz (col3 m) * vw v)
      (vw (col0 m) * vx v + vw (col1 m) * vy v + vw (col2 m) * vz v + vw (col3 m) * vw v).

(** One column of [mat4 * mat4]. *)
Definition mat4_mul_col (a : mat4 T) (b : vec4 T) : vec4 T :=
    v4_add (v4_add (v4_add (v4_scale (col0 a) (vx b)) (v4_scale (col1 a) (vy b)))
                   (v4_scale (col2 a) (vz b)))
           (v4_scale (col3 a) (vw b)).

(** [mat4 * mat4]. *)
Definition mat4_mul (a b : mat4 T) : mat4 T :=
    Mat4 (mat4_mul_col a (col0 b)) (mat4_mul_col a (col1 b))
         (mat4_mul_col a (col2 b)) (mat4_mul_col a (col3 b)).

(** [glm::translate(m, v)]. *)
Definition translate (m : mat4 T) (v : vec3 T) : mat4 T :=
    Mat4 (col0 m) (col1 m) (col2 m)
         (v4_add (v4_add (v4_add (v4_scale (col0 m) (x3 v)) (v4_scale (col1 m) (y3 v)))
                         (v4_scale (col2 m) (z3 v)))
                 (col3 m)).

(** [glm::scale(m, v)]. *)
Definition scale (m : mat4 T) (v : vec3 T) : mat4 T :=
    Mat4 (v4_scale (col0 m) (x3 v)) (v4_scale (col1 m) (y3 v))
         (v4_scale (col2 m) (z3 v)) (col3 m).

(** [glm::inverse(m)]: cofactors divided by the determinant.  There is no
      test of the determinant. *)
Definition inverse (m : mat4 T) : mat4 T :=
    let m00 := vx (col0 m) in let m01 := vy (col0 m) in
    let m02 := vz (col0 m) in let m03 := vw (col0 m) in
    let m10 := vx (col1 m) in let m11 := vy (col1 m) in
    let m12 := vz (col1 m) in let m13 := vw (col1 m) in
    let m20 := vx (col2 m) in let m21 := vy (col2 m) in
    let m22 := vz (col2 m) in let m23 := vw (col2 m) in
    let m30 := vx (col3 m) in let m31 := vy (col3 m) in
    let m32 := vz (col3 m) in let m33 := vw (col3 m) in
    let Coef00 := m22 * m33 - m32 * m23 in
    let Coef02 := m12 * m33 - m32 * m13 in
    let Coef03 := m12 * m23 - m22 * m13 in
    let Coef04 := m21 * m33 - m31 * m23 in
    let Coef06 := m11 * m33 - m31 * m13 in
    let Coef07 := m11 * m23 - m21 * m13 in
    let Coef08 := m21 * m32 - m31 * m22 in
    let Coef10 := m11 * m32 - m31 * m12 in
    let Coef11 := m11 * m22 - m21 * m12 in
    let Coef12 := m20 * m33 - m30 * m23 in
    let Coef14 := m10 * m33 - m30 * m13 in
    let Coef15 := m10 * m23 - m20 * m13 in
    let Coef16 := m20 * m32 - m30 * m22 in
    let Coef18 := m10 * m32 - m30 * m12 in
    let Coef19 := m10 * m22 - m20 * m12 in
    let Coef20 := m20 * m31 - m30 * m21 in
    let Coef22 := m10 * m31 - m30 * m11 in
    let Coef23 := m10 * m21 - m20 * m11 in
    let neg1 := szero - sone in
    let v4_mul (a b : vec4 T) :=
      Vec4 (vx a * vx b) (vy a * vy b) (vz a * vz b) (vw a * vw b) in
    let v4_sub (a b : vec4 T) :=
      Vec4 (vx a - vx b) (vy a - vy b) (vz a - vz b) (vw a - vw b) in
    let SignA := Vec4 sone neg1 sone neg1 in
    let SignB := Vec4 neg1 sone neg1 sone in
    let Fac0 := Vec4 Coef00 Coef00 Coef02 Coef03 in
    let Fac1 := Vec4 Coef04 Coef04 Coef06 Coef07 in
    let Fac2 := Vec4 Coef08 Coef08 Coef10 Coef11 in
    let Fac3 := Vec4 Coef12 Coef12 Coef14 Coef15 in
    let Fac4 := Vec4 Coef16 Coef16 Coef18 Coef19 in
    let Fac5 := Vec4 Coef20 Coef20 Coef22 Coef23 in
    let Vec0 := Vec4 m10 m00 m00 m00 in
    let Vec1 := Vec4 m11 m01 m01 m01 in
    let Vec2 := Vec4 m12 m02 m02 m02 in
    let Vec3 := Vec4 m13 m03 m03 m03 in
    let Inv0 := v4_mul SignA (v4_add (v4_sub (v4_mul Vec1 Fac0) (v4_mul Vec2 Fac1)) (v4_mul Vec3 Fac2)) in
    let Inv1 := v4_mul SignB (v4_add (v4_sub (v4_mul Vec0 Fac0) (v4_mul Vec2 Fac3)) (v4_mul Vec3 Fac4)) in
    let Inv2 := v4_mul SignA (v4_add (v4_sub (v4_mul Vec0 Fac1) (v4_mul Vec1 Fac3)) (v4_mul Vec3 Fac5)) in
    let Inv3 := v4_mul SignB (v4_add (v4_sub (v4_mul Vec0 Fac2) (v4_mul Vec1 Fac4)) (v4_mul Vec2 Fac5)) in
    let Row0 := Vec4 (vx Inv0) (vx Inv1) (vx Inv2) (vx Inv3) in
    let Determinant :=
      m00 * vx Row0 + m01 * vy Row0 + m02 * vz Row0 + m03 * vw Row0 in
    let v4_div (a : vec4 T) (s : T) :=
      Vec4 (vx a / s) (vy a / s) (vz a / s) (vw a / s) in
    Mat4 (v4_div Inv0 Determinant) (v4_div Inv1 Determinant)
         (v4_div Inv2 Determinant) (v4_div Inv3 Determinant).

End Generic.

(** The single-precision functions of the C library that GLM calls. *)
Record libm : Type := {
  cosf : Binary32.float -> Binary32.float;
  sinf : Binary32.float -> Binary32.float
}.

Section Single.
Import Binary32.
Variable lm : libm.
Local Open Scope scalar_scope.

(** The [float] nearest to pi, [0x40490FDB]. *)
Definition pi_f : float := S754_finite false 13176795 (-22).

(** [glm::radians(degrees)]. *)
Definition radians (degrees : float) : float :=
    degrees * (pi_f / of_int 180).

(** [glm::normalize(v)] for a [vec3]: [v * inversesqrt(dot(v, v))]. *)
Definition normalize (v : vec3 float) : vec3 float :=
    let sqr := x3 v * x3 v + y3 v * y3 v + z3 v * z3 v in
    let inv := of_int 1 / fsqrt sqr in
    Vec3 (x3 v * inv) (y3 v * inv) (z3 v * inv).

(** [glm::rotate(m, angle, v)], with [angle] in degrees. *)
Definition rotate (m : mat4 float) (angle : float) (v : vec3 float) : mat4 float :=
    let a := radians angle in
    let c := cosf lm a in
    let s := sinf lm a in
    let axis := normalize v in
    let temp := Vec3 ((of_int 1 - c) * x3 axis) ((of_int 1 - c) * y3 axis)
                     ((of_int 1 - c) * z3 axis) in
    let R00 := c + x3 temp * x3 axis in
    let R01 := of_int 0 + x3 temp * y3 axis + s * z3 axis in
    let R02 := of_int 0 + x3 temp * z3 axis - s * y3 axis in
    let R10 := of_int 0 + y3 temp * x3 axis - s * z3 axis in
    let R11 := c + y3 temp * y3 axis in
    let R12 := of_int 0 + y3 temp * z3 axis + s * x3 axis in
    let R20 := of_int 0 + z3 temp * x3 axis + s * y3 axis in
    let R21 := of_int 0 + z3 temp * y3 axis - s * x3 axis in
    let R22 := c + z3 temp * z3 axis in
    Mat4
      (v4_add (v4_add (v4_scale (col0 m) R00) (v4_scale (col1 m) R01)) (v4_scale (col2 m) R02))
      (v4_add (v4_add (v4_scale (col0 m) R10) (v4_scale (col1 m) R11)) (v4_scale (col2 m) R12))
      (v4_add (v4_add (v4_scale (col0 m) R20) (v4_scale (col1 m) R21)) (v4_scale (col2 m) R22))
      (col3 m).

End Single.
End Glm.

(* ------------------------------------------------------------------ *)
(** ** Joint poses and the global pose table *)

Import Binary32.

(** The two global objects that contain [JointPose]s. *)
Inductive block : Type :=
| Bposes      (* Pose poses[N_POSES] *)
| Bcurrent.   (* Pose current_pose   *)

(** A [JointPose*]: null, a byte offset into one of the two objects, or the
    result of subtracting pointers into different objects, which has no
    defined value. *)
Inductive pointer : Type :=
| Null
| Addr (b : block) (off : Z)
| Wild.

Definition color4 : Type := vec4 float.

Record JointPose : Type := {
  parent : pointer;
  color : color4;
  translation : vec2 float;
  rotation : float;
  scale : float
}.

Definition JOINT_COUNT : nat := 7.

(** [struct Pose { JointPose joints[7]; }] *)
Record Pose : Type := { joints : list JointPose }.

Definition N_POSES : nat := 3.

(** [sizeof(JointPose)] and [sizeof(Pose)] on an LP64 target:
    8 (pointer) + 16 (vec4) + 8 (vec2) + 4 + 4. *)
Definition sizeof_JointPose : Z := 40.
Definition sizeof_Pose : Z := Z.of_nat JOINT_COUNT * sizeof_JointPose.

(** The global variables of [main.cpp] that the pose code reads and writes. *)
Record globals : Type := {
  viewport : Z * Z;
  poses : list Pose;
  left_pose : nat;
  right_pose : nat;
  current_pose : Pose
}.

(** A zero-initialised [JointPose] (static storage). *)
Definition JointPose_zero : JointPose := {|
  parent := Null;
  color := Vec4 fzero fzero fzero fzero;
  translation := Vec2 fzero fzero;
  rotation := fzero;
  scale := fzero
|}.

Definition Pose_zero : Pose := {| joints := repeat JointPose_zero JOINT_COUNT |}.

(** [a[i] = v] on an array held as a list; the length never changes. *)
Fixpoint update_nth {A : Type} (i : nat) (v : A) (l : list A) : list A :=
  match l, i with
  | [], _ => []
  | _ :: t, O => v :: t
  | h :: t, S i' => h :: update_nth i' v t
  end.

(** [p.joints[j]] and [poses[i]]. *)
Definition joint (p : Pose) (j : nat) : JointPose := nth j (joints p) JointPose_zero.
Definition pose (ps : list Pose) (i : nat) : Pose := nth i ps Pose_zero.

Definition set_joint (j : nat) (jp : JointPose) (p : Pose) : Pose :=
  {| joints := update_nth j jp (joints p) |}.

(** [&poses[i].joints[j]] and [&current_pose.joints[j]]. *)
Definition addr_poses (i j : nat) : pointer :=
  Addr Bposes (Z.of_nat i * sizeof_Pose + Z.of_nat j * sizeof_JointPose).
Definition addr_current (j : nat) : pointer :=
  Addr Bcurrent (Z.of_nat j * sizeof_JointPose).

(** The joint number a byte offset designates inside an array of [n]
    joints, when it is the address of one. *)
Definition joint_at (off : Z) (n : nat) : option nat :=
  if (0 <=? off) && (off mod sizeof_JointPose =? 0)
     && (off / sizeof_JointPose <? Z.of_nat n)
  then Some (Z.to_nat (off / sizeof_JointPose))
  else None.

(** [*p] for a [JointPose* p]. *)
Definition load (g : globals) (p : pointer) : option JointPose :=
  match p with
  | Addr Bposes off =>
      match joint_at off (List.length (poses g) * JOINT_COUNT)%nat with
      | Some k => nth_error (joints (pose (poses g) (k / JOINT_COUNT)%nat)) (k mod JOINT_COUNT)%nat
      | None => None
      end
  | Addr Bcurrent off =>
      match joint_at off JOINT_COUNT with
      | Some k => nth_error (joints (current_pose g)) k
      | None => None
      end
  | Null | Wild => None
  end.

(* ------------------------------------------------------------------ *)
(** ** Transform evaluator *)

Section Evaluator.
Variable lm : Glm.libm.

(** [getJointLocalTransform]. *)
Definition getJointLocalTransform (joint_pose : JointPose) : mat4 float :=
  let transform := Glm.mat4_identity in
  let transform :=
    Glm.translate transform
      (Vec3 (x2 (translation joint_pose)) (y2 (translation joint_pose)) (of_int 0)) in
  let transform :=
    if fneb (rotation joint_pose) (flit 0 1)
    then Glm.rotate lm transform (rotation joint_pose)
           (Vec3 (of_int 0) (of_int 0) (of_int 1))
    else transform in
  let transform :=
    if fneb (scale joint_pose) (flit 1 1)
    then Glm.scale transform
           (Vec3 (scale joint_pose) (scale joint_pose) (scale joint_pose))
    else transform in
  transform.

(** [getJointTransform].  The recursion follows [parent] pointers; [fuel]
    bounds its depth, and [None] is a run that exhausts it or dereferences
    a pointer that is not the address of a joint. *)
Fixpoint getJointTransform (fuel : nat) (g : globals) (joint_pose : JointPose)
  : option (mat4 float) :=
  match fuel with
  | O => None
  | S fuel' =>
      match parent joint_pose with
      | Null => Some (getJointLocalTransform joint_pose)
      | p =>
          match load g p with
          | Some parent_pose =>
              match getJointTransform fuel' g parent_pose with
              | Some m => Some (Glm.mat4_mul m (getJointLocalTransform joint_pose))
              | None => None
              end
          | None => None
          end
      end
  end.

End Evaluator.

(* ------------------------------------------------------------------ *)
(** ** [initPoses] *)

Definition with_parent (p : pointer) (jp : JointPose) : JointPose :=
  {| parent := p; color := color jp; translation := translation jp;
     rotation := rotation jp; scale := scale jp |}.
Definition with_color (c : color4) (jp : JointPose) : JointPose :=
  {| parent := parent jp; color := c; translation := translation jp;
     rotation := rotation jp; scale := scale jp |}.
Definition with_translation (t : vec2 float) (jp : JointPose) : JointPose :=
  {| parent := parent jp; color := color jp; translation := t;
     rotation := rotation jp; scale := scale jp |}.
Definition with_rotation (r : float) (jp : JointPose) : JointPose :=
  {| parent := parent jp; color := color jp; translation := translation jp;
     rotation := r; scale := scale jp |}.
Definition with_scale (s : float) (jp : JointPose) : JointPose :=
  {| parent := parent jp; color := color jp; translation := translation jp;
     rotation := rotation jp; scale := s |}.

(** [poses[i].joints[j].field = ...] *)
Definition upd_joint (i j : nat) (f : JointPose -> JointPose) (ps : list Pose)
  : list Pose :=
  update_nth i (set_joint j (f (joint (pose ps i) j)) (pose ps i)) ps.

(** [poses[i].joints[j] = poses[i'].joints[j']] and [poses[i] = poses[i']]. *)
Definition copy_joint (i j i' j' : nat) (ps : list Pose) : list Pose :=
  upd_joint i j (fun _ => joint (pose ps i') j') ps.
Definition copy_pose (i i' : nat) (ps : list Pose) : list Pose :=
  update_nth i (pose ps i') ps.

(** [color4(r, g, b, a)] with [f]-suffixed literals, [vec2] of an [int] or
    [double] literal pair, and an [f]-suffixed integral literal. *)
Definition rgba (r g b a : Z) : color4 :=
  Vec4 (flit r 1) (flit g 1) (flit b 1) (flit a 1).
Definition dbl (n : Z) : float := narrow (dlit n 1000000).
Definition deg (n : Z) : float := flit n 1.

(** The globals before [main] runs: static storage is zero-initialised,
    [left_pose] and [right_pose] have their initialisers. *)
Definition globals_init : globals := {|
  viewport := (0, 0);
  poses := repeat Pose_zero N_POSES;
  left_pose := 2;
  right_pose := 1;
  current_pose := Pose_zero
|}.

Definition initPoses (g : globals) : globals :=
  let ps := poses g in
  (* poses[0] => bind pose. *)
  let ps := upd_joint 0 0 (with_color (rgba 1 1 1 1)) ps in
  let ps := upd_joint 0 0 (with_parent Null) ps in
  let ps := upd_joint 0 0 (with_translation (Vec2 (of_int 0) (of_int 0))) ps in
  let ps := upd_joint 0 0 (with_rotation (deg 0)) ps in
  let ps := upd_joint 0 0 (with_scale (flit 1 1)) ps in

  let ps := copy_joint 0 1 0 0 ps in
  let ps := upd_joint 0 1 (with_color (rgba 1 0 0 1)) ps in
  let ps := upd_joint 0 1 (with_parent (addr_poses 0 0)) ps in
  let ps := upd_joint 0 1 (with_translation (Vec2 (of_int 0) (dbl 206357))) ps in
  let ps := upd_joint 0 1 (with_rotation (deg 90)) ps in

  let ps := copy_joint 0 2 0 0 ps in
  let ps := upd_joint 0 2 (with_color (rgba 0 1 0 1)) ps in
  let ps := upd_joint 0 2 (with_parent (addr_poses 0 0)) ps in
  let ps := upd_joint 0 2 (with_translation (Vec2 (dbl (-178710)) (dbl (-103178)))) ps in
  let ps := upd_joint 0 2 (with_rotation (deg 210)) ps in

  let ps := copy_joint 0 3 0 0 ps in
  let ps := upd_joint 0 3 (with_color (rgba 0 0 1 1)) ps in
  let ps := upd_joint 0 3 (with_parent (addr_poses 0 0)) ps in
  let ps := upd_joint 0 3 (with_translation (Vec2 (dbl 178710) (dbl (-103178)))) ps in
  let ps := upd_joint 0 3 (with_rotation (deg (-30))) ps in

  let ps := copy_joint 0 4 0 1 ps in
  let ps := upd_joint 0 4 (with_color (rgba 1 1 0 1)) ps in
  let ps := upd_joint 0 4 (with_parent (addr_poses 0 1)) ps in
  let ps := upd_joint 0 4 (with_translation (Vec2 (dbl 475503) (of_int 0))) ps in
  let ps := upd_joint 0 4 (with_rotation (deg 0)) ps in

  let ps := copy_joint 0 5 0 4 ps in
  let ps := upd_joint 0 5 (with_color (rgba 0 1 1 1)) ps in
  let ps := upd_joint 0 5 (with_parent (addr_poses 0 2)) ps in

  let ps := copy_joint 0 6 0 4 ps in
  let ps := upd_joint 0 6 (with_color (rgba 1 0 1 1)) ps in
  let ps := upd_joint 0 6 (with_parent (addr_poses 0 3)) ps in

  let ps := copy_pose 1 0 ps in
  let ps := upd_joint 1 1 (with_parent (addr_poses 1 0)) ps in
  let ps := upd_joint 1 1 (with_rotation (deg 45)) ps in
  let ps := upd_joint 1 2 (with_parent (addr_poses 1 0)) ps in
  let ps := upd_joint 1 2 (with_rotation (deg 165)) ps in
  let ps := upd_joint 1 3 (with_parent (addr_poses 1 0)) ps in
  let ps := upd_joint 1 3 (with_rotation (deg (-75))) ps in
  let ps := upd_joint 1 4 (with_parent (addr_poses 1 1)) ps in
  let ps := upd_joint 1 4 (with_rotation (deg (-45))) ps in
  let ps := upd_joint 1 5 (with_parent (addr_poses 1 2)) ps in
  let ps := upd_joint 1 5 (with_rotation (deg (-45))) ps in
  let ps := upd_joint 1 6 (with_parent (addr_poses 1 3)) ps in
  let ps := upd_joint 1 6 (with_rotation (deg (-45))) ps in

  let ps := copy_pose 2 0 ps in
  let ps := upd_joint 2 1 (with_parent (addr_poses 2 0)) ps in
  let ps := upd_joint 2 1 (with_rotation (deg 135)) ps in
  let ps := upd_joint 2 2 (with_parent (addr_poses 2 0)) ps in
  let ps := upd_joint 2 2 (with_rotation (deg 255)) ps in
  let ps := upd_joint 2 3 (with_parent (addr_poses 2 0)) ps in
  let ps := upd_joint 2 3 (with_rotation (deg 15)) ps in
  let ps := upd_joint 2 4 (with_parent (addr_poses 2 1)) ps in
  let ps := upd_joint 2 4 (with_rotation (deg 45)) ps in
  let ps := upd_joint 2 5 (with_parent (addr_poses 2 2)) ps in
  let ps := upd_joint 2 5 (with_rotation (deg 45)) ps in
  let ps := upd_joint 2 6 (with_parent (addr_poses 2 3)) ps in
  let ps := upd_joint 2 6 (with_rotation (deg 45)) ps in

  {| viewport := viewport g;
     poses := ps;
     left_pose := left_pose g;
     right_pose := right_pose g;
     current_pose := pose ps 0 |}.

(* ------------------------------------------------------------------ *)
(** ** [mouseMove]: the pose blender and its driver *)

(** [current_pose.joints[j] = ...] field by field. *)
Definition upd_current (j : nat) (f : JointPose -> JointPose) (g : globals) : globals :=
  {| viewport := viewport g;
     poses := poses g;
     left_pose := left_pose g;
     right_pose := right_pose g;
     current_pose := set_joint j (f (joint (current_pose g) j)) (current_pose g) |}.

(** The pointer
    [(char* )&current_pose + ((char* )p - (char* )&poses[left_pose])]. *)
Definition rebase (left : nat) (p : pointer) : pointer :=
  match p with
  | Addr Bposes off => Addr Bcurrent (0 + (off - Z.of_nat left * sizeof_Pose))
  | _ => Wild
  end.

(** One iteration of the loop of [mouseMove]. *)
Definition mouseMove_joint (f g : float) (st : globals) (j : nat) : globals :=
  let jp := joint (current_pose st) j in
  let st :=
    match parent jp with
    | Null => st
    | p => upd_current j (with_parent (rebase (left_pose st) p)) st
    end in
  let L := joint (pose (poses st) (left_pose st)) in
  let R := joint (pose (poses st) (right_pose st)) in
  let st := upd_current j (with_color
              (Glm.v4_add (Glm.v4_scale (color (L j)) g)
                          (Glm.v4_scale (color (R j)) f))) st in
  let st := upd_current j (with_rotation
              (fadd (fmul (rotation (L j)) g) (fmul (rotation (R j)) f))) st in
  let st := upd_current j (with_scale
              (fadd (fmul (scale (L j)) g) (fmul (scale (R j)) f))) st in
  let st := upd_current j (with_translation
              (Glm.v2_add (Glm.v2_scale (translation (L j)) g)
                          (Glm.v2_scale (translation (R j)) f))) st in
  st.

(** The body of [mouseMove] once [f] and [g] are known: the blend of
    [poses[left_pose]] and [poses[right_pose]] into [current_pose]. *)
Definition blend (f g : float) (st : globals) : globals :=
  let st := {| viewport := viewport st;
               poses := poses st;
               left_pose := left_pose st;
               right_pose := right_pose st;
               current_pose := pose (poses st) (left_pose st) |} in
  fold_left (mouseMove_joint f g) (seq 0 JOINT_COUNT) st.

(** [float(x) / viewport.x] *)
Definition blend_factor (x : Z) (st : globals) : float :=
  fdiv (of_int x) (of_int (fst (viewport st))).

(** [mouseMove(x, y)]. *)
Definition mouseMove (x y : Z) (st : globals) : globals :=
  let f := blend_factor x st in
  let g := fsub (of_int 1) f in
  blend f g st.

(** [reshape(width, height)] as far as the globals go. *)
Definition reshape (width height : Z) (g : globals) : globals :=
  {| viewport := (width, height);
     poses := poses g;
     left_pose := left_pose g;
     right_pose := right_pose g;
     current_pose := current_pose g |}.

(* ------------------------------------------------------------------ *)
(** ** The mesh: [Vertex], [SkeletalMesh] and [initMeshes] *)

(** A C array of three elements. *)
Record arr3 (A : Type) : Type := Arr3 { a0 : A; a1 : A; a2 : A }.
Arguments Arr3 {A} _ _ _.
Arguments a0 {A} _.
Arguments a1 {A} _.
Arguments a2 {A} _.

Definition arr3_get {A : Type} (a : arr3 A) (k : nat) : A :=
  match k with O => a0 a | S O => a1 a | _ => a2 a end.
Definition arr3_set {A : Type} (k : nat) (v : A) (a : arr3 A) : arr3 A :=
  match k with
  | O => Arr3 v (a1 a) (a2 a)
  | S O => Arr3 (a0 a) v (a2 a)
  | _ => Arr3 (a0 a) (a1 a) v
  end.

(** [struct Vertex]; a [GLuint] is a [Z] below [2^32]. *)
Record Vertex : Type := {
  position : vec2 float;
  joint_indices : arr3 Z;
  joint_weights : arr3 float
}.

(** The parts of [SkeletalMesh] that are data; a [GLushort] is a [Z] below
    [2^16]. *)
Record SkeletalMesh : Type := {
  vertices : list Vertex;
  indices : list Z
}.

(** The local [v] and the mesh under construction. *)
Record mesh_builder : Type := {
  mb_v : Vertex;
  mb_mesh : SkeletalMesh
}.

(** [v.joint_indices[k] = n; v.joint_weights[k] = w / 10 (an f literal)] *)
Definition set_joint_weight (k : nat) (n : Z) (w : Z) (b : mesh_builder) : mesh_builder :=
  {| mb_v := {| position := position (mb_v b);
                joint_indices := arr3_set k (n mod 2 ^ 32) (joint_indices (mb_v b));
                joint_weights := arr3_set k (flit w 10) (joint_weights (mb_v b)) |};
     mb_mesh := mb_mesh b |}.

(** [v.position = vec2(x, y); mesh->vertices.push_back(v);] with [double]
    literals given in millionths. *)
Definition push_at (x y : Z) (b : mesh_builder) : mesh_builder :=
  let v := {| position := Vec2 (dbl x) (dbl y);
              joint_indices := joint_indices (mb_v b);
              joint_weights := joint_weights (mb_v b) |} in
  {| mb_v := v;
     mb_mesh := {| vertices := vertices (mb_mesh b) ++ [v];
                   indices := indices (mb_mesh b) |} |}.

(** [mesh->vertices.push_back(v);] *)
Definition push_vertex (b : mesh_builder) : mesh_builder :=
  {| mb_v := mb_v b;
     mb_mesh := {| vertices := vertices (mb_mesh b) ++ [mb_v b];
                   indices := indices (mb_mesh b) |} |}.

(** Three [mesh->indices.push_back(...)] in a row. *)
Definition push_triangle (i j k : Z) (b : mesh_builder) : mesh_builder :=
  {| mb_v := mb_v b;
     mb_mesh := {| vertices := vertices (mb_mesh b);
                   indices := indices (mb_mesh b)
                              ++ [i mod 2 ^ 16; j mod 2 ^ 16; k mod 2 ^ 16] |} |}.

Definition run_builder (steps : list (mesh_builder -> mesh_builder))
  (b : mesh_builder) : mesh_builder :=
  fold_left (fun b step => step b) steps b.

(** [initMeshes], up to the upload.  [v] is declared without an
    initialiser, so its first value is whatever the stack held: the
    argument [garbage]. *)
Definition initMeshes (garbage : Vertex) : SkeletalMesh :=
  mb_mesh (run_builder [
    push_vertex;    (* unused vertex (the indices used start at 1) *)
    set_joint_weight 0 0 6;
    set_joint_weight 1 1 1;
    set_joint_weight 2 2 1;
    push_at (-57707) 33317;
    set_joint_weight 0 0 6;
    set_joint_weight 1 1 1;
    set_joint_weight 2 3 1;
    push_at 57707 33317;
    set_joint_weight 0 1 2;
    set_joint_weight 1 4 8;
    set_joint_weight 2 0 0;
    push_at (-42311) 784992;
    push_at 42311 784992;
    set_joint_weight 0 4 10;
    set_joint_weight 1 1 0;
    push_at 0 935516;
    set_joint_weight 0 1 8;
    set_joint_weight 1 4 2;
    push_at (-42311) 568087;
    push_at 42311 568087;
    set_joint_weight 0 1 9;
    set_joint_weight 1 0 1;
    push_at (-42311) 451115;
    push_at 42311 451115;
    set_joint_weight 0 0 4;
    set_joint_weight 1 1 6;
    push_at (-42311) 206357;
    push_at 42311 206357;
    set_joint_weight 0 1 8;
    set_joint_weight 1 0 2;
    push_at (-42311) 328522;
    push_at 42311 328522;
    set_joint_weight 0 1 6;
    set_joint_weight 1 4 4;
    push_at (-42311) 681860;
    push_at 42311 681860;
    set_joint_weight 0 0 6;
    set_joint_weight 1 2 1;
    set_joint_weight 2 3 1;
    push_at 0 (-66635);
    set_joint_weight 0 3 2;
    set_joint_weight 1 6 8;
    set_joint_weight 2 0 0;
    push_at 700979 (-355853);
    push_at 658668 (-429139);
    set_joint_weight 0 6 10;
    set_joint_weight 1 0 0;
    push_at 810180 (-467758);
    set_joint_weight 0 3 8;
    set_joint_weight 1 6 2;
    push_at 513133 (-247401);
    push_at 470822 (-320686);
    set_joint_weight 0 3 9;
    set_joint_weight 1 0 1;
    push_at 411833 (-188915);
    push_at 369521 (-262200);
    set_joint_weight 0 0 4;
    set_joint_weight 1 3 6;
    push_at 199866 (-66536);
    push_at 157554 (-139821);
    set_joint_weight 0 3 8;
    set_joint_weight 1 0 2;
    push_at 305664 (-127618);
    push_at 263353 (-200904);
    set_joint_weight 0 3 6;
    set_joint_weight 1 6 4;
    push_at 611663 (-304287);
    push_at 569352 (-377572);
    set_joint_weight 0 2 2;
    set_joint_weight 1 5 8;
    set_joint_weight 2 0 0;
    push_at (-658668) (-429139);
    push_at (-700979) (-355853);
    set_joint_weight 0 5 10;
    set_joint_weight 1 0 0;
    push_at (-810180) (-467758);
    set_joint_weight 0 2 8;
    set_joint_weight 1 5 2;
    push_at (-470822) (-320686);
    push_at (-513133) (-247401);
    set_joint_weight 0 2 9;
    set_joint_weight 1 0 1;
    push_at (-369521) (-262200);
    push_at (-411833) (-188915);
    set_joint_weight 0 0 4;
    set_joint_weight 1 2 6;
    push_at (-157554) (-139821);
    push_at (-199866) (-66536);
    set_joint_weight 0 2 8;
    set_joint_weight 1 0 2;
    push_at (-263353) (-200904);
    push_at (-305664) (-127618);
    set_joint_weight 0 2 6;
    set_joint_weight 1 5 4;
    push_at (-569352) (-377572);
    push_at (-611663) (-304287);
    push_triangle 1 2 10;
    push_triangle 10 2 11;
    push_triangle 3 4 5;
    push_triangle 14 15 3;
    push_triangle 3 15 4;
    push_triangle 2 16 24;
    push_triangle 24 16 25;
    push_triangle 17 18 19;
    push_triangle 28 29 17;
    push_triangle 17 29 18;
    push_triangle 16 1 37;
    push_triangle 37 1 38;
    push_triangle 30 31 32;
    push_triangle 41 42 30;
    push_triangle 30 42 31;
    push_triangle 2 1 16;
    push_triangle 33 34 41;
    push_triangle 41 34 42;
    push_triangle 37 38 39;
    push_triangle 39 38 40;
    push_triangle 33 36 34;
    push_triangle 40 35 39;
    push_triangle 36 33 35;
    push_triangle 35 40 36;
    push_triangle 10 11 12;
    push_triangle 12 11 13;
    push_triangle 6 7 14;
    push_triangle 14 7 15;
    push_triangle 6 9 7;
    push_triangle 8 13 9;
    push_triangle 13 8 12;
    push_triangle 9 6 8;
    push_triangle 24 25 26;
    push_triangle 26 25 27;
    push_triangle 20 21 28;
    push_triangle 28 21 29;
    push_triangle 20 23 21;
    push_triangle 22 27 23;
    push_triangle 27 22 26;
    push_triangle 23 20 22
  ] {| mb_v := garbage; mb_mesh := {| vertices := []; indices := [] |} |}).

(* ------------------------------------------------------------------ *)
(** ** [initGL]: the bind-pose inverse table *)

(** How a start-up routine ends: it returns, it throws
    [std::runtime_error(what)], or the recursion of [getJointTransform]
    does not come back within the fuel given. *)
Inductive outcome (A : Type) : Type :=
| Returned (a : A)
| Thrown (what : string)
| Exhausted.
Arguments Returned {A} _.
Arguments Thrown {A} _.
Arguments Exhausted {A}.

(** What the OpenGL driver answers to [initShaderProgram]. *)
Record gl_driver : Type := {
  vertex_shader_compiles : bool;
  fragment_shader_compiles : bool;
  program_links : bool
}.

(** [initShaderProgram], as far as control flow goes. *)
Definition initShaderProgram (drv : gl_driver) : outcome unit :=
  if negb (vertex_shader_compiles drv) then Thrown "Error compiling vertex shader!"
  else if negb (fragment_shader_compiles drv) then Thrown "Error compiling fragment shader!"
  else if negb (program_links drv) then Thrown "Error linking program!"
  else Returned tt.

(** The loop of [initGL] that fills [bind_pose_inv_data]. *)
Definition bind_pose_inv_step (lm : Glm.libm) (fuel : nat) (g : globals)
  (acc : option (list (mat4 float))) (j : nat) : option (list (mat4 float)) :=
  match acc with
  | None => None
  | Some data =>
      let jp := joint (pose (poses g) 0) j in
      match getJointTransform lm fuel g jp with
      | Some m => Some (update_nth j (Glm.inverse m) data)
      | None => None
      end
  end.

Definition bind_pose_inv_data (lm : Glm.libm) (fuel : nat) (g : globals)
  : option (list (mat4 float)) :=
  fold_left (bind_pose_inv_step lm fuel g) (seq 0 JOINT_COUNT)
    (Some (repeat Glm.mat4_identity JOINT_COUNT)).

(** What [initGL] leaves behind: the mesh and the [bind_pose_inv] uniform. *)
Record gl_state : Type := {
  mesh : SkeletalMesh;
  bind_pose_inv_uniform : list (mat4 float)
}.

(** [initGL]. *)
Definition initGL (lm : Glm.libm) (drv : gl_driver) (fuel : nat)
  (garbage : Vertex) (g : globals) : outcome gl_state :=
  match initShaderProgram drv with
  | Thrown what => Thrown what
  | Exhausted => Exhausted
  | Returned _ =>
      let m := initMeshes garbage in
      match bind_pose_inv_data lm fuel g with
      | Some data => Returned {| mesh := m; bind_pose_inv_uniform := data |}
      | None => Exhausted
      end
  end.

(** The joints whose model transform is singular: a non-zero vector that
    the matrix sends to zero. *)
Definition in_kernel (m : mat4 float) (v : vec4 float) : Prop :=
  v <> Glm.v4_zero /\ Glm.mat4_mul_vec m v = Glm.v4_zero.

(* ------------------------------------------------------------------ *)
(** ** The vertex shader *)

Module Shader.
Section Main.
Context {T : Type} `{Scalar T}.

Record uniforms : Type := {
  bind_pose_inv : list (mat4 T);
  current_pose : list (mat4 T);
  current_pose_colors : list (vec4 T)
}.

Record attributes : Type := {
  position : vec2 T;
  joint_0_index : nat;
  joint_1_index : nat;
  joint_2_index : nat;
  joint_0_weight : T;
  joint_1_weight : T;
  joint_2_weight : T
}.

Record outputs : Type := {
  gl_Position : vec4 T;
  color : vec4 T
}.

(** The two statements the shader runs for one influencing joint.  An index
    outside a uniform array has no defined result: [None]. *)
Definition accumulate (u : uniforms) (vertex_coords : vec4 T)
  (index : nat) (weight : T) (o : outputs) : option outputs :=
  match nth_error (current_pose_colors u) index,
        nth_error (current_pose u) index,
        nth_error (bind_pose_inv u) index with
  | Some c, Some cur, Some inv =>
      Some {| gl_Position :=
                Glm.v4_add (gl_Position o)
                  (Glm.v4_lscale weight
                     (Glm.mat4_mul_vec (Glm.mat4_mul cur inv) vertex_coords));
              color := Glm.v4_add (color o) (Glm.v4_lscale weight c) |}
  | _, _, _ => None
  end.

(** [main()] of [vertex_shader_source]. *)
Definition main (u : uniforms) (a : attributes) : option outputs :=
  let vertex_coords := Glm.v4_of_v2 (position a) szero sone in
  let o := {| gl_Position := Glm.v4_zero; color := Glm.v4_zero |} in
  match accumulate u vertex_coords (joint_0_index a) (joint_0_weight a) o with
  | None => None
  | Some o =>
      match accumulate u vertex_coords (joint_1_index a) (joint_1_weight a) o with
      | None => None
      | Some o =>
          accumulate u vertex_coords (joint_2_index a) (joint_2_weight a) o
      end
  end.

End Main.
End Shader.

(* ------------------------------------------------------------------ *)
(** ** Reference definitions the claims are compared with *)

(** The local transform "always multiplying": the same GLM calls as
    [getJointLocalTransform] with no test of the rotation or the scale. *)
Definition localTransform_always_multiply (lm : Glm.libm) (joint_pose : JointPose)
  : mat4 float :=
  Glm.scale
    (Glm.rotate lm
       (Glm.translate Glm.mat4_identity
          (Vec3 (x2 (translation joint_pose)) (y2 (translation joint_pose)) (of_int 0)))
       (rotation joint_pose)
       (Vec3 (of_int 0) (of_int 0) (of_int 1)))
    (Vec3 (scale joint_pose) (scale joint_pose) (scale joint_pose)).

(** A [Vertex] of zeros. *)
Definition Vertex_zero : Vertex := {|
  position := Vec2 fzero fzero;
  joint_indices := Arr3 0 0 0;
  joint_weights := Arr3 fzero fzero fzero
|}.

(** The sum [joint_weights[0] + joint_weights[1] + joint_weights[2]]. *)
Definition weight_sum (v : Vertex) : float :=
  fadd (fadd (a0 (joint_weights v)) (a1 (joint_weights v))) (a2 (joint_weights v)).

(** All three joint indices of a vertex are joint ids. *)
Definition indices_in_range (v : Vertex) : bool :=
  (a0 (joint_indices v) <? Z.of_nat JOINT_COUNT)
  && (a1 (joint_indices v) <? Z.of_nat JOINT_COUNT)
  && (a2 (joint_indices v) <? Z.of_nat JOINT_COUNT).

(** What the C library guarantees of [cosf] and [sinf] (C99 Annex F): they
    return floats, [cos(+-0)] is [1] and [sin(+-0)] is [+-0]. *)
Record libm_ok (lm : Glm.libm) : Prop := {
  cosf_valid : forall x, valid (Glm.cosf lm x) = true;
  sinf_valid : forall x, valid (Glm.sinf lm x) = true;
  cosf_zero : forall b, Glm.cosf lm (S754_zero b) = fone;
  sinf_zero : forall b, Glm.sinf lm (S754_zero b) = S754_zero b
}.

(** The columns [m[0]], [m[1]] and [m[2]] hold floats of the format. *)
Definition v4_valid (v : vec4 float) : bool :=
  valid (vx v) && valid (vy v) && valid (vz v) && valid (vw v).
Definition cols012_valid (m : mat4 float) : bool :=
  v4_valid (col0 m) && v4_valid (col1 m) && v4_valid (col2 m).

(** The axis [vec3(0, 0, 1)] of every rotation in the demo. *)
Definition z_axis : vec3 float := Vec3 (of_int 0) (of_int 0) (of_int 1).

(** The globals hold arrays of the declared sizes: [Pose poses[3]], seven
    joints in every pose, and [left_pose], [right_pose] inside [poses]. *)
Definition Pose_wf (p : Pose) : bool := Nat.eqb (List.length (joints p)) JOINT_COUNT.
Definition globals_wf (st : globals) : bool :=
  Nat.eqb (List.length (poses st)) N_POSES
  && forallb Pose_wf (poses st)
  && Pose_wf (current_pose st)
  && Nat.ltb (left_pose st) N_POSES
  && Nat.ltb (right_pose st) N_POSES.

(** What one iteration of the loop of [mouseMove] makes of joint [j] of
    [current_pose], whose value before the iteration is [old]. *)
Definition blended_joint (f g : float) (ps : list Pose) (left right : nat)
  (j : nat) (old : JointPose) : JointPose :=
  let L := joint (pose ps left) j in
  let R := joint (pose ps right) j in
  {| parent := match parent old with
               | Null => Null
               | p => rebase left p
               end;
     color := Glm.v4_add (Glm.v4_scale (color L) g) (Glm.v4_scale (color R) f);
     translation := Glm.v2_add (Glm.v2_scale (translation L) g)
                               (Glm.v2_scale (translation R) f);
     rotation := fadd (fmul (rotation L) g) (fmul (rotation R) f);
     scale := fadd (fmul (scale L) g) (fmul (scale R) f) |}.

(** A float of the format that is finite and is not [-0.0f]. *)
Definition regular (x : float) : bool :=
  valid x && is_finite x && negb (is_neg_zero x).

(** Every interpolated field of a joint, of a pose, is [regular]. *)
Definition JointPose_regular (jp : JointPose) : bool :=
  regular (vx (color jp)) && regular (vy (color jp))
  && regular (vz (color jp)) && regular (vw (color jp))
  && regular (x2 (translation jp)) && regular (y2 (translation jp))
  && regular (rotation jp) && regular (scale jp).
Definition Pose_regular (p : Pose) : bool := forallb JointPose_regular (joints p).

(** The interpolated fields of two joints are the same floats, bit for bit. *)
Definition same_interpolated_fields (a b : JointPose) : Prop :=
  color a = color b /\ rotation a = rotation b
  /\ scale a = scale b /\ translation a = translation b.

(** [blend(A, B, t)]: the loop of [mouseMove] run with [f = t] and
    [g = 1 - t]. *)
Definition blend_at (t : float) (st : globals) : globals :=
  blend t (fsub (of_int 1) t) st.

(** The pose table of [initPoses] with [rotation = -0.0f] in joint 0 of
    [poses[2]], the left-hand pose. *)
Definition globals_negative_zero : globals :=
  let st := initPoses globals_init in
  {| viewport := viewport st;
     poses := upd_joint 2 0 (with_rotation (S754_zero true)) (poses st);
     left_pose := left_pose st;
     right_pose := right_pose st;
     current_pose := current_pose st |}.

(** The globals when the main loop starts: [initPoses] has run and GLUT has
    delivered the first [reshape(width, height)]. *)
Definition globals_started (width height : Z) : globals :=
  reshape width height (initPoses globals_init).

(** The joint number a parent pointer designates inside its own pose. *)
Definition parent_joint (p : pointer) : option nat :=
  match p with
  | Addr Bposes off =>
      option_map (fun k => (k mod JOINT_COUNT)%nat)
                 (joint_at off (N_POSES * JOINT_COUNT))
  | Addr Bcurrent off => joint_at off JOINT_COUNT
  | Null | Wild => None
  end.

(** The shape of the hierarchy of a pose: the parent joint of every joint. *)
Definition topology (p : Pose) : list (option nat) :=
  map (fun jp => parent_joint (parent jp)) (joints p).

(** A pointer into [current_pose] itself. *)
Definition points_into_current (p : pointer) : bool :=
  match p with
  | Addr Bcurrent _ => true
  | _ => false
  end.

(** The positions, in the vertex array, of the vertices whose weights do
    not sum to [1.0f]. *)
Definition weight_defects (vs : list Vertex) : list nat :=
  filter (fun i => fneb (weight_sum (nth i vs Vertex_zero)) (flit 1 1))
         (seq 0 (List.length vs)).

(** The joints met from [joint_pose] up to a root by following [parent],
    when a root is reached within [n] joints. *)
Fixpoint chain (n : nat) (g : globals) (joint_pose : JointPose)
  : option (list JointPose) :=
  match n with
  | O => None
  | S n' =>
      match parent joint_pose with
      | Null => Some [joint_pose]
      | p =>
          match load g p with
          | Some parent_pose => option_map (cons joint_pose) (chain n' g parent_pose)
          | None => None
          end
      end
  end.

(** The product of the local transforms along a chain, root first. *)
Fixpoint chain_transform (lm : Glm.libm) (l : list JointPose) : mat4 float :=
  match l with
  | [] => Glm.mat4_identity
  | jp :: rest =>
      match rest with
      | [] => getJointLocalTransform lm jp
      | _ => Glm.mat4_mul (chain_transform lm rest) (getJointLocalTransform lm jp)
      end
  end.

(** A stand-in for the C library, exact at zero and constant elsewhere; it
    instantiates statements that hold for every [libm]. *)
Definition libm_coarse : Glm.libm := {|
  Glm.cosf := fun x => match x with S754_zero _ => fone | _ => fzero end;
  Glm.sinf := fun x => match x with S754_zero b => S754_zero b | _ => fzero end
|}.

(** In the uniforms [u], the index [i] is inside the three arrays and the
    composed transform [current_pose[i] * bind_pose_inv[i]] is the identity. *)
Definition composed_identity_at {T : Type} `{Scalar T}
  (u : Shader.uniforms (T := T)) (i : nat) : Prop :=
  exists cur inv c,
    nth_error (Shader.current_pose u) i = Some cur
    /\ nth_error (Shader.bind_pose_inv u) i = Some inv
    /\ nth_error (Shader.current_pose_colors u) i = Some c
    /\ Glm.mat4_mul cur inv = Glm.mat4_identity.

(** Uniforms in which the current pose is the bind pose at rest: seven
    identity matrices in both arrays, white joints. *)
Definition uniforms_at_rest : Shader.uniforms (T := Qc) := {|
  Shader.bind_pose_inv := repeat Glm.mat4_identity JOINT_COUNT;
  Shader.current_pose := repeat Glm.mat4_identity JOINT_COUNT;
  Shader.current_pose_colors := repeat (Vec4 1%Qc 1%Qc 1%Qc 1%Qc) JOINT_COUNT
|}.

(** Vertex 3 of the mesh with its decimal weights taken exactly. *)
Definition vertex_3_exact : Shader.attributes (T := Qc) := {|
  Shader.position := Vec2 (Q2Qc (-42311 # 1000000)) (Q2Qc (784992 # 1000000));
  Shader.joint_0_index := 1;
  Shader.joint_1_index := 4;
  Shader.joint_2_index := 0;
  Shader.joint_0_weight := Q2Qc (2 # 10);
  Shader.joint_1_weight := Q2Qc (8 # 10);
  Shader.joint_2_weight := 0%Qc
|}.

(** A driver that compiles and links the shaders. *)
Definition gl_driver_ok : gl_driver := {|
  vertex_shader_compiles := true;
  fragment_shader_compiles := true;
  program_links := true
|}.

(** The model transform [getJointTransform] returns for joint [j] of the
    bind pose when its chain of parents reaches a root (the identity is a
    placeholder for the other case). *)
Definition bind_transform (lm : Glm.libm) (g : globals) (j : nat) : mat4 float :=
  match chain JOINT_COUNT g (joint (pose (poses g) 0) j) with
  | Some l => chain_transform lm l
  | None => Glm.mat4_identity
  end.

(** The pose table of [initPoses] with [scale = 0.0f] in the root joint of
    the bind pose. *)
Definition globals_zero_scale : globals :=
  let st := initPoses globals_init in
  {| viewport := viewport st;
     poses := upd_joint 0 0 (with_scale (flit 0 1)) (poses st);
     left_pose := left_pose st;
     right_pose := right_pose st;
     current_pose := current_pose st |}.

(** ** Further definitions: what the properties below are stated with *)

(** Every parent pointer of [poses[i]] is null or the address of a joint of
    [poses[i]] itself. *)
Definition self_contained_joint (i : nat) (jp : JointPose) : bool :=
  match parent jp with
  | Null => true
  | Addr Bposes off =>
      existsb (fun k => off =? Z.of_nat i * sizeof_Pose + Z.of_nat k * sizeof_JointPose)
              (seq 0 JOINT_COUNT)
  | _ => false
  end.
Definition Pose_self_contained (ps : list Pose) (i : nat) : bool :=
  forallb (self_contained_joint i) (joints (pose ps i)).

(** The loop of [display] that fills [current_pose_data] and
    [current_pose_color_data]; the two arrays start default-constructed. *)
Definition display_step (lm : Glm.libm) (fuel : nat) (g : globals)
  (acc : option (list (mat4 float) * list (vec4 float))) (j : nat)
  : option (list (mat4 float) * list (vec4 float)) :=
  match acc with
  | None => None
  | Some (data, colors) =>
      let jp := joint (current_pose g) j in
      match getJointTransform lm fuel g jp with
      | Some m => Some (update_nth j m data, update_nth j (color jp) colors)
      | None => None
      end
  end.

Definition display_uniforms (lm : Glm.libm) (fuel : nat) (g : globals)
  : option (list (mat4 float) * list (vec4 float)) :=
  fold_left (display_step lm fuel g) (seq 0 JOINT_COUNT)
    (Some (repeat Glm.mat4_identity JOINT_COUNT,
           repeat (Vec4 fzero fzero fzero fzero) JOINT_COUNT)).

(** The events GLUT delivers to the callbacks that write the globals. *)
Inductive event : Type :=
| Reshape (width height : Z)
| MouseMove (x y : Z).

Definition handle (st : globals) (e : event) : globals :=
  match e with
  | Reshape width height => reshape width height st
  | MouseMove x y => mouseMove x y st
  end.

(** The globals after [main] has run [initPoses] and the main loop has
    dispatched the events [evs], oldest first. *)
Definition main_loop (evs : list event) : globals :=
  fold_left handle evs (initPoses globals_init).



(** The globals after [initPoses] with joint 0 of [current_pose] made its
    own parent. *)
Definition globals_self_parent : globals :=
  upd_current 0 (with_parent (addr_current 0)) (initPoses globals_init).

(** The pose table of [initPoses] without the re-pointing of joint 4 of
    [poses[2]]: its parent is still joint 1 of [poses[0]], as the copy
    [poses[2] = poses[0]] left it. *)
Definition globals_stale_parent : globals :=
  let st := globals_started 800 800 in
  {| viewport := viewport st;
     poses := upd_joint 2 4 (with_parent (addr_poses 0 1)) (poses st);
     left_pose := left_pose st;
     right_pose := right_pose st;
     current_pose := current_pose st |}.

(** The vertices [glDrawElements] fetches for the triangles of a mesh, in
    the order of the index buffer; an index outside the vertex buffer
    fetches nothing defined. *)
Definition drawn_vertices (m : SkeletalMesh) : list (option Vertex) :=
  map (fun i => nth_error (vertices m) (Z.to_nat i)) (indices m).

(** ** [keyboard] *)

(** The polygon mode of the OpenGL context, for both faces. *)
Inductive polygon_mode : Type := GL_LINE | GL_FILL.

(** What [keyboard] reads and writes: the globals [draw_joints] and
    [wireframe], the polygon mode of the context, whether
    [glutLeaveMainLoop] has been called, the number of calls of
    [glutPostRedisplay] and the number of help messages written to
    [std::cerr]. *)
Record ui : Type := {
  draw_joints : bool;
  wireframe : bool;
  gl_polygon_mode : polygon_mode;
  main_loop_left : bool;
  redisplays_posted : nat;
  help_messages : nat
}.

(** The state when the main loop starts: the initialisers of the two
    globals and the [glPolygonMode(GL_FRONT_AND_BACK, GL_FILL)] of
    [initGL]. *)
Definition ui_init : ui := {|
  draw_joints := true;
  wireframe := false;
  gl_polygon_mode := GL_FILL;
  main_loop_left := false;
  redisplays_posted := 0;
  help_messages := 0
|}.

Definition glutPostRedisplay (u : ui) : ui :=
  {| draw_joints := draw_joints u;
     wireframe := wireframe u;
     gl_polygon_mode := gl_polygon_mode u;
     main_loop_left := main_loop_left u;
     redisplays_posted := S (redisplays_posted u);
     help_messages := help_messages u |}.

(** The key codes of the [case] labels: [27], ['w'], ['j'] and ['h']. *)
Definition key_escape : Z := 27.
Definition key_w : Z := 119.
Definition key_j : Z := 106.
Definition key_h : Z := 104.

(** [keyboard(key, x, y)]; [key] is an [unsigned char]. *)
Definition keyboard (key : Z) (x y : Z) (u : ui) : ui :=
  if key =? key_escape then
    {| draw_joints := draw_joints u;
       wireframe := wireframe u;
       gl_polygon_mode := gl_polygon_mode u;
       main_loop_left := true;
       redisplays_posted := redisplays_posted u;
       help_messages := help_messages u |}
  else if key =? key_w then
    glutPostRedisplay
      {| draw_joints := draw_joints u;
         wireframe := negb (wireframe u);
         gl_polygon_mode := if negb (wireframe u) then GL_LINE else GL_FILL;
         main_loop_left := main_loop_left u;
         redisplays_posted := redisplays_posted u;
         help_messages := help_messages u |}
  else if key =? key_j then
    glutPostRedisplay
      {| draw_joints := negb (draw_joints u);
         wireframe := wireframe u;
         gl_polygon_mode := gl_polygon_mode u;
         main_loop_left := main_loop_left u;
         redisplays_posted := redisplays_posted u;
         help_messages := help_messages u |}
  else if key =? key_h then
    glutPostRedisplay
      {| draw_joints := draw_joints u;
         wireframe := wireframe u;
         gl_polygon_mode := gl_polygon_mode u;
         main_loop_left := main_loop_left u;
         redisplays_posted := redisplays_posted u;
         help_messages := S (help_messages u) |}
  else glutPostRedisplay u.

(** The keys pressed, oldest first, each with the pointer position GLUT
    reports. *)
Definition keyboard_events (keys : list (Z * Z * Z)) (u : ui) : ui :=
  fold_left (fun u e => keyboard (fst (fst e)) (snd (fst e)) (snd e) u) keys u.

(** The number of presses of [key]. *)
Definition presses (key : Z) (keys : list (Z * Z * Z)) : nat :=
  List.length (filter (fun e => fst (fst e) =? key) keys).

(** The polygon mode is the one [wireframe] asks for. *)
Definition polygon_mode_agrees (u : ui) : bool :=
  match gl_polygon_mode u, wireframe u with
  | GL_LINE, true | GL_FILL, false => true
  | _, _ => false
  end.

(** ** [SkeletalMesh::uploadMesh] and the vertex fetch *)

(** The content of 4 bytes of a buffer: a [GLfloat] or a [GLuint]. *)
Inductive cell : Type :=
| Cfloat (f : float)
| Cuint (n : Z).

(** The object representation of a [Vertex]: two floats, three [GLuint],
    three [GLfloat], 4 bytes each. *)
Definition Vertex_cells (v : Vertex) : list cell :=
  [Cfloat (x2 (position v)); Cfloat (y2 (position v));
   Cuint (a0 (joint_indices v)); Cuint (a1 (joint_indices v));
   Cuint (a2 (joint_indices v));
   Cfloat (a0 (joint_weights v)); Cfloat (a1 (joint_weights v));
   Cfloat (a2 (joint_weights v))].

Definition sizeof_cell : Z := 4.
Definition sizeof_Vertex : Z := 8 * sizeof_cell.

(** The members of [Vertex] that [uploadMesh] takes the address of. *)
Inductive Vertex_member : Type :=
| m_position
| m_joint_indices (k : nat)
| m_joint_weights (k : nat).

(** [(char* )(&va[0].member) - (char* )(&va[0])] *)
Definition member_offset (m : Vertex_member) : Z :=
  match m with
  | m_position => 0
  | m_joint_indices k => (2 + Z.of_nat k) * sizeof_cell
  | m_joint_weights k => (5 + Z.of_nat k) * sizeof_cell
  end.

(** One generic vertex attribute of a vertex array: the arguments of
    [glVertexAttribPointer] ([attr_integer = false]) or
    [glVertexAttribIPointer] ([attr_integer = true]) and whether
    [glEnableVertexAttribArray] was called for it. *)
Record attribute_array : Type := {
  attr_size : nat;
  attr_integer : bool;
  attr_stride : Z;
  attr_pointer : Z;
  attr_enabled : bool
}.

(** The vertex array after [uploadMesh]: the two buffers and the attributes
    0 to 6. *)
Record vertex_array : Type := {
  array_buffer : list cell;
  element_array_buffer : list Z;
  attribute_arrays : list attribute_array
}.

(** [SkeletalMesh::uploadMesh]. *)
Definition uploadMesh (m : SkeletalMesh) : vertex_array :=
  let attr_ptr_position := 0 in
  let attr_ptr_bone_index_0 := member_offset (m_joint_indices 0) in
  let attr_ptr_bone_index_1 := member_offset (m_joint_indices 1) in
  let attr_ptr_bone_index_2 := member_offset (m_joint_indices 2) in
  let attr_ptr_bone_weight_0 := member_offset (m_joint_weights 0) in
  let attr_ptr_bone_weight_1 := member_offset (m_joint_weights 1) in
  let attr_ptr_bone_weight_2 := member_offset (m_joint_weights 2) in
  let pointer size integer p :=
    {| attr_size := size; attr_integer := integer; attr_stride := sizeof_Vertex;
       attr_pointer := p; attr_enabled := true |} in
  {| array_buffer := flat_map Vertex_cells (vertices m);
     element_array_buffer := indices m;
     attribute_arrays :=
       [pointer 2%nat false attr_ptr_position;
        pointer 1%nat true attr_ptr_bone_index_0;
        pointer 1%nat true attr_ptr_bone_index_1;
        pointer 1%nat true attr_ptr_bone_index_2;
        pointer 1%nat false attr_ptr_bone_weight_0;
        pointer 1%nat false attr_ptr_bone_weight_1;
        pointer 1%nat false attr_ptr_bone_weight_2] |}.

(** The [n] cells of a buffer from a byte offset on, when they are there. *)
Definition read_cells (buf : list cell) (offset : Z) (n : nat) : option (list cell) :=
  if (0 <=? offset) && (offset mod sizeof_cell =? 0) then
    let cells := firstn n (skipn (Z.to_nat (offset / sizeof_cell)) buf) in
    if Nat.eqb (List.length cells) n then Some cells else None
  else None.

(** What OpenGL fetches for the attribute [index] of the vertex number
    [vertex]: the cells at [pointer + vertex * stride], and whether they go
    to the shader as integers. *)
Definition fetch (va : vertex_array) (index vertex : nat) : option (bool * list cell) :=
  match nth_error (attribute_arrays va) index with
  | Some a =>
      if attr_enabled a then
        option_map (pair (attr_integer a))
          (read_cells (array_buffer va)
             (attr_pointer a + Z.of_nat vertex * attr_stride a) (attr_size a))
      else None
  | None => None
  end.

(** The value of an [in vec2], an [in uint] and an [in float] of the vertex
    shader; an attribute of the wrong kind gives no defined value. *)
Definition in_vec2 (a : option (bool * list cell)) : option (vec2 float) :=
  match a with
  | Some (false, [Cfloat x; Cfloat y]) => Some (Vec2 x y)
  | _ => None
  end.
Definition in_uint (a : option (bool * list cell)) : option nat :=
  match a with
  | Some (true, [Cuint n]) => Some (Z.to_nat n)
  | _ => None
  end.
Definition in_float (a : option (bool * list cell)) : option float :=
  match a with
  | Some (false, [Cfloat x]) => Some x
  | _ => None
  end.

(** The inputs of the vertex shader for one vertex, by the [location] of
    their declarations in [vertex_shader_source]. *)
Definition shader_inputs (va : vertex_array) (vertex : nat)
  : option (Shader.attributes (T := float)) :=
  match in_vec2 (fetch va 0 vertex),
        in_uint (fetch va 1 vertex), in_uint (fetch va 2 vertex),
        in_uint (fetch va 3 vertex),
        in_float (fetch va 4 vertex), in_float (fetch va 5 vertex),
        in_float (fetch va 6 vertex) with
  | Some p, Some i0, Some i1, Some i2, Some w0, Some w1, Some w2 =>
      Some {| Shader.position := p;
              Shader.joint_0_index := i0;
              Shader.joint_1_index := i1;
              Shader.joint_2_index := i2;
              Shader.joint_0_weight := w0;
              Shader.joint_1_weight := w1;
              Shader.joint_2_weight := w2 |}
  | _, _, _, _, _, _, _ => None
  end.

(** ** OpenGL objects: shaders, the program, the vertex array, the buffers *)

(** The object names in use in the four name spaces the program touches. *)
Record gl_objects : Type := {
  gl_shaders : list Z;
  gl_programs : list Z;
  gl_vertex_arrays : list Z;
  gl_buffers : list Z
}.

(** The names the driver hands out, in the order the program asks for them:
    [glCreateShader] twice and [glCreateProgram] in [initShaderProgram],
    [glGenVertexArrays] and [glGenBuffers] twice in the constructor of
    [SkeletalMesh]. *)
Record gl_names : Type := {
  vert_shader_id : Z;
  frag_shader_id : Z;
  program_id : Z;
  vao_id_ : Z;
  vbo_id_ : Z;
  ibo_id_ : Z
}.

Definition unused (name : Z) (l : list Z) : bool :=
  negb (name =? 0) && negb (existsb (Z.eqb name) l).

(** What OpenGL promises of the names it returns: each one is not zero and
    was not in use in its name space (shaders and programs share one). *)
Definition names_fresh (nm : gl_names) (o : gl_objects) : bool :=
  unused (vert_shader_id nm) (gl_shaders o ++ gl_programs o)
  && unused (frag_shader_id nm) (vert_shader_id nm :: gl_shaders o ++ gl_programs o)
  && unused (program_id nm)
       (frag_shader_id nm :: vert_shader_id nm :: gl_shaders o ++ gl_programs o)
  && unused (vao_id_ nm) (gl_vertex_arrays o)
  && unused (vbo_id_ nm) (gl_buffers o)
  && unused (ibo_id_ nm) (vbo_id_ nm :: gl_buffers o).





Definition glGenVertexArrays (name : Z) (o : gl_objects) : gl_objects :=
  {| gl_shaders := gl_shaders o;
     gl_programs := gl_programs o;
     gl_vertex_arrays := name :: gl_vertex_arrays o;
     gl_buffers := gl_buffers o |}.

Definition glGenBuffers (name : Z) (o : gl_objects) : gl_objects :=
  {| gl_shaders := gl_shaders o;
     gl_programs := gl_programs o;
     gl_vertex_arrays := gl_vertex_arrays o;
     gl_buffers := name :: gl_buffers o |}.

(** [glDeleteBuffers(1, &name)]: a name that is not a buffer is ignored. *)
Definition glDeleteBuffers (name : Z) (o : gl_objects) : gl_objects :=
  {| gl_shaders := gl_shaders o;
     gl_programs := gl_programs o;
     gl_vertex_arrays := gl_vertex_arrays o;
     gl_buffers := remove Z.eq_dec name (gl_buffers o) |}.

(** The context together with the globals [shader_program_id] and [mesh]
    (the three names the mesh object holds, when there is one). *)
Record gl_run : Type := {
  objects : gl_objects;
  shader_program_id : Z;
  mesh_ids : option (Z * Z * Z)
}.



(** [mesh = new SkeletalMesh()]: the constructor. *)
Definition SkeletalMesh_new (nm : gl_names) (r : gl_run) : gl_run :=
  let o := glGenVertexArrays (vao_id_ nm) (objects r) in
  let o := glGenBuffers (vbo_id_ nm) o in
  let o := glGenBuffers (ibo_id_ nm) o in
  {| objects := o;
     shader_program_id := shader_program_id r;
     mesh_ids := Some (vao_id_ nm, vbo_id_ nm, ibo_id_ nm) |}.

(** [delete mesh]: the destructor; [delete] of a null pointer does
    nothing. *)
Definition SkeletalMesh_delete (r : gl_run) : gl_run :=
  match mesh_ids r with
  | Some (vao, vbo, ibo) =>
      let o := glDeleteBuffers vao (objects r) in
      let o := glDeleteBuffers vbo o in
      let o := glDeleteBuffers ibo o in
      {| objects := o;
         shader_program_id := shader_program_id r;
         mesh_ids := None |}
  | None => r
  end.




(** A driver that numbers the objects of each kind from 1. *)
Definition gl_names_from_1 : gl_names := {|
  vert_shader_id := 1;
  frag_shader_id := 2;
  program_id := 3;
  vao_id_ := 1;
  vbo_id_ := 1;
  ibo_id_ := 2
|}.

(* ------------------------------------------------------------------ *)
(** * Facts about binary32 arithmetic *)

Section Rounding.

Lemma digits2_pos_spec p :
  2 ^ (Zpos (digits2_pos p) - 1) <= Zpos p < 2 ^ Zpos (digits2_pos p).
Proof.
  induction p as [q IH|q IH|]; cbn [digits2_pos].
  - rewrite Pos2Z.inj_succ, Z.pow_succ_r by lia.
    replace (Z.succ (Zpos (digits2_pos q)) - 1)
      with (Z.succ (Zpos (digits2_pos q) - 1)) by lia.
    rewrite Z.pow_succ_r by lia. lia.
  - rewrite Pos2Z.inj_succ, Z.pow_succ_r by lia.
    replace (Z.succ (Zpos (digits2_pos q)) - 1)
      with (Z.succ (Zpos (digits2_pos q) - 1)) by lia.
    rewrite Z.pow_succ_r by lia. lia.
  - cbn. lia.
Qed.

Lemma Zdigits2_spec m :
  0 < m -> 0 < Zdigits2 m /\ 2 ^ (Zdigits2 m - 1) <= m < 2 ^ Zdigits2 m.
Proof.
  destruct m as [|p|p]; try lia. intros _. cbn [Zdigits2].
  split; [lia|apply digits2_pos_spec].
Qed.

Lemma Zdigits2_unique m d :
  0 < m -> 2 ^ (d - 1) <= m < 2 ^ d -> Zdigits2 m = d.
Proof.
  intros Hm [Hl Hu].
  destruct (Zdigits2_spec m Hm) as [Hd [Hl' Hu']].
  assert (0 < d).
  { destruct (Z.lt_trichotomy d 0) as [|[|]]; try lia.
    - rewrite Z.pow_neg_r in Hu; lia.
    - subst. cbn in Hu. lia. }
  destruct (Z.lt_trichotomy (Zdigits2 m) d) as [Hlt|[Heq|Hgt]]; [|exact Heq|].
  - assert (2 ^ Zdigits2 m <= 2 ^ (d - 1)) by (apply Z.pow_le_mono_r; lia). lia.
  - assert (2 ^ d <= 2 ^ (Zdigits2 m - 1)) by (apply Z.pow_le_mono_r; lia). lia.
Qed.

Lemma Zdigits2_ge m k : 0 < m -> 2 ^ (k - 1) <= m -> k <= Zdigits2 m.
Proof.
  intros Hm Hk. destruct (Zdigits2_spec m Hm) as [Hd [_ Hu]].
  destruct (Z_le_gt_dec k (Zdigits2 m)) as [|Hgt]; [assumption|].
  assert (2 ^ Zdigits2 m <= 2 ^ (k - 1)) by (apply Z.pow_le_mono_r; lia). lia.
Qed.

Lemma Zdigits2_nonneg m : 0 <= Zdigits2 m.
Proof. destruct m; cbn; lia. Qed.

Lemma Zdigits2_mono m m' : 0 <= m <= m' -> Zdigits2 m <= Zdigits2 m'.
Proof.
  intros [H0 Hle]. destruct (Z.eq_dec m 0) as [->|Hne].
  - apply Zdigits2_nonneg.
  - apply Zdigits2_ge; [lia|]. destruct (Zdigits2_spec m) as [_ [Hl _]]; lia.
Qed.

Lemma Zdigits2_div_pow m n : 0 < m -> 0 <= n ->
  (n < Zdigits2 m /\ 0 < m / 2 ^ n /\ Zdigits2 (m / 2 ^ n) = Zdigits2 m - n)
  \/ (Zdigits2 m <= n /\ m / 2 ^ n = 0).
Proof.
  intros Hm Hn. destruct (Zdigits2_spec m Hm) as [Hd [Hl Hu]].
  assert (Hp : 0 < 2 ^ n) by (apply Z.pow_pos_nonneg; lia).
  destruct (Z_lt_le_dec n (Zdigits2 m)) as [Hlt|Hge].
  - left. split; [assumption|].
    assert (L : 2 ^ (Zdigits2 m - n - 1) <= m / 2 ^ n).
    { apply Z.div_le_lower_bound; [assumption|].
      rewrite <- Z.pow_add_r by lia.
      replace (n + (Zdigits2 m - n - 1)) with (Zdigits2 m - 1) by lia. assumption. }
    assert (U : m / 2 ^ n < 2 ^ (Zdigits2 m - n)).
    { apply Z.div_lt_upper_bound; [assumption|].
      rewrite <- Z.pow_add_r by lia.
      replace (n + (Zdigits2 m - n)) with (Zdigits2 m) by lia. assumption. }
    assert (0 < 2 ^ (Zdigits2 m - n - 1)) by (apply Z.pow_pos_nonneg; lia).
    split; [lia|]. apply Zdigits2_unique; [lia|]. split; assumption.
  - right. split; [assumption|]. apply Z.div_small. split; [lia|].
    assert (2 ^ Zdigits2 m <= 2 ^ n) by (apply Z.pow_le_mono_r; lia). lia.
Qed.

Lemma Zdigits2_mul_ge a b : 0 < a -> 0 < b ->
  Zdigits2 a + Zdigits2 b - 1 <= Zdigits2 (a * b).
Proof.
  intros Ha Hb.
  destruct (Zdigits2_spec a Ha) as [Hda [Hla _]].
  destruct (Zdigits2_spec b Hb) as [Hdb [Hlb _]].
  apply Zdigits2_ge; [lia|].
  replace (Zdigits2 a + Zdigits2 b - 1 - 1)
    with ((Zdigits2 a - 1) + (Zdigits2 b - 1)) by lia.
  rewrite Z.pow_add_r by lia.
  assert (0 < 2 ^ (Zdigits2 a - 1)) by (apply Z.pow_pos_nonneg; lia).
  assert (0 < 2 ^ (Zdigits2 b - 1)) by (apply Z.pow_pos_nonneg; lia).
  nia.
Qed.

Lemma digits2_pos_iter_xO d : forall m,
  Zpos (digits2_pos (Pos.iter xO m d)) = Zpos (digits2_pos m) + Zpos d.
Proof.
  induction d as [|d IH] using Pos.peano_ind; intros m.
  - cbn. lia.
  - rewrite Pos.iter_succ. cbn [digits2_pos]. rewrite Pos2Z.inj_succ, IH. lia.
Qed.

(** Shifting right: the mantissa is divided by a power of two. *)
Lemma shr_1_m mrs : 0 <= shr_m mrs -> shr_m (shr_1 mrs) = shr_m mrs / 2.
Proof.
  destruct mrs as [m r s]; cbn [shr_m]. intros Hm.
  destruct m as [|[p|p|]|p]; cbn [shr_1 shr_m]; try reflexivity; try lia.
  - rewrite Pos2Z.inj_xI. apply Z.div_unique with 1; lia.
  - rewrite Pos2Z.inj_xO. apply Z.div_unique with 0; lia.
Qed.

Lemma iter_shr_1_m p : forall mrs, 0 <= shr_m mrs ->
  shr_m (iter_pos shr_1 p mrs) = shr_m mrs / 2 ^ Zpos p.
Proof.
  induction p as [q IH|q IH|]; intros mrs Hm; cbn [iter_pos].
  - assert (H1 : 0 <= shr_m (shr_1 mrs))
      by (rewrite shr_1_m by lia; apply Z.div_pos; lia).
    assert (H2 : 0 <= shr_m (iter_pos shr_1 q (shr_1 mrs)))
      by (rewrite IH by lia; apply Z.div_pos; lia).
    rewrite IH, IH, shr_1_m by lia.
    rewrite !Z.div_div by lia.
    f_equal. rewrite Pos2Z.inj_xI, <- Z.pow_add_r by lia.
    rewrite <- (Z.pow_succ_r 2) by lia. f_equal. lia.
  - assert (H2 : 0 <= shr_m (iter_pos shr_1 q mrs))
      by (rewrite IH by lia; apply Z.div_pos; lia).
    rewrite IH, IH by lia.
    rewrite !Z.div_div by lia.
    f_equal. rewrite Pos2Z.inj_xO, <- Z.pow_add_r by lia. f_equal. lia.
  - rewrite shr_1_m by lia. reflexivity.
Qed.

Lemma shr_record_of_loc_m m l : shr_m (shr_record_of_loc m l) = m.
Proof. destruct l as [|[]]; reflexivity. Qed.

Lemma shr_fexp_spec m e l : 0 <= m ->
  exists mrs,
    shr_fexp prec emax m e l
    = (mrs, e + Z.max 0 (fexp prec emax (Zdigits2 m + e) - e))
    /\ shr_m mrs = m / 2 ^ Z.max 0 (fexp prec emax (Zdigits2 m + e) - e).
Proof.
  intros Hm. unfold shr_fexp, shr.
  destruct (fexp prec emax (Zdigits2 m + e) - e) as [|p|p] eqn:E.
  - exists (shr_record_of_loc m l). rewrite shr_record_of_loc_m.
    cbn [Z.max Z.compare].
    rewrite Z.add_0_r, Z.pow_0_r, Z.div_1_r. split; reflexivity.
  - exists (iter_pos shr_1 p (shr_record_of_loc m l)).
    rewrite iter_shr_1_m by (rewrite shr_record_of_loc_m; assumption).
    rewrite shr_record_of_loc_m. split; reflexivity.
  - exists (shr_record_of_loc m l). rewrite shr_record_of_loc_m.
    replace (Z.max 0 (Z.neg p)) with 0 by lia.
    rewrite Z.add_0_r, Z.pow_0_r, Z.div_1_r. split; reflexivity.
Qed.

Lemma round_nearest_even_bounds m l :
  m <= round_nearest_even m l <= m + 1.
Proof.
  unfold round_nearest_even. destruct l as [|[]]; try lia.
  destruct (Z.even m); lia.
Qed.

(** Rounding returns a float of the format, provided the exponent it starts
    from is not above the exponent of the format at that magnitude. *)
Lemma binary_round_aux_valid sx m e l :
  0 < m -> e <= fexp prec emax (Zdigits2 m + e) ->
  valid (binary_round_aux prec emax sx m e l) = true.
Proof.
  intros Hm Hpre. unfold valid, binary_round_aux.
  destruct (shr_fexp_spec m e l) as (mrs1 & E1 & M1); [lia|]. rewrite E1.
  set (n1 := Z.max 0 (fexp prec emax (Zdigits2 m + e) - e)) in *.
  set (e1 := e + n1) in *.
  pose proof (round_nearest_even_bounds (shr_m mrs1) (loc_of_shr_record mrs1)) as B.
  set (m2 := round_nearest_even (shr_m mrs1) (loc_of_shr_record mrs1)) in *.
  assert (H1 : 0 <= shr_m mrs1)
    by (rewrite M1; apply Z.div_pos; [lia|apply Z.pow_pos_nonneg; lia]).
  destruct (shr_fexp_spec m2 e1 loc_Exact) as (mrs2 & E2 & M2); [lia|]. rewrite E2.
  set (n2 := Z.max 0 (fexp prec emax (Zdigits2 m2 + e1) - e1)) in *.
  destruct (shr_m mrs2) as [|p|p] eqn:E3; try reflexivity.
  destruct (Z.leb (e1 + n2) (emax - prec)) eqn:Eb; [|reflexivity].
  cbn [valid_binary]. unfold bounded. rewrite Eb, andb_true_r.
  unfold canonical_mantissa. apply Z.eqb_eq.
  change (Z.pos (digits2_pos p)) with (Zdigits2 (Z.pos p)). rewrite M2.
  assert (Hm2 : 0 < m2).
  { destruct (Z.eq_dec m2 0) as [Z0|]; [|lia].
    rewrite Z0, Z.div_0_l in M2; [lia|]. apply Z.pow_nonzero; lia. }
  assert (Hd2 : Zdigits2 (shr_m mrs1) <= Zdigits2 m2) by (apply Zdigits2_mono; lia).
  destruct (Zdigits2_div_pow m2 n2 Hm2) as [(Hn & Hpos & Hd)|(Hn & Hz)];
    [lia| |rewrite Hz in M2; lia].
  rewrite Hd.
  destruct (Zdigits2_div_pow m n1 Hm) as [(Hn' & Hpos' & Hd')|(Hn' & Hz')]; [lia| |].
  - rewrite <- M1 in Hd'. unfold fexp, emin in *. unfold prec, emax in *. lia.
  - pose proof (Zdigits2_spec m Hm). unfold fexp, emin in *. unfold prec, emax in *. lia.
Qed.

Lemma canonical_iff m e :
  canonical_mantissa prec emax m e = true <->
  fexp prec emax (Zdigits2 (Zpos m) + e) = e.
Proof. unfold canonical_mantissa. rewrite Z.eqb_eq. reflexivity. Qed.

Lemma binary_round_valid sx mx ex :
  valid (binary_round prec emax sx mx ex) = true.
Proof.
  unfold binary_round, shl_align.
  destruct (fexp prec emax (Z.pos (digits2_pos mx) + ex) - ex) as [|p|p] eqn:E.
  - apply binary_round_aux_valid; [lia|]. cbn [Zdigits2]. lia.
  - apply binary_round_aux_valid; [lia|]. cbn [Zdigits2]. lia.
  - apply binary_round_aux_valid; [lia|]. cbn [Zdigits2].
    rewrite digits2_pos_iter_xO.
    replace (Z.pos (digits2_pos mx) + Z.pos p
             + fexp prec emax (Z.pos (digits2_pos mx) + ex))
      with (Z.pos (digits2_pos mx) + ex) by lia.
    lia.
Qed.

Lemma binary_normalize_valid m e s :
  valid (binary_normalize prec emax m e s) = true.
Proof.
  destruct m; cbn [binary_normalize]; [reflexivity|apply binary_round_valid..].
Qed.

End Rounding.

Section Operations.

Lemma fmul_valid x y :
  valid x = true -> valid y = true -> valid (fmul x y) = true.
Proof.
  destruct x as [sx|sx| |sx mx ex], y as [sy|sy| |sy my ey]; try reflexivity.
  unfold valid, fmul. cbn [valid_binary SFmul]. unfold bounded.
  rewrite !andb_true_iff, !canonical_iff.
  intros [Cx _] [Cy _].
  apply binary_round_aux_valid; [lia|].
  pose proof (Zdigits2_mul_ge (Zpos mx) (Zpos my)) as D.
  change (Z.pos (mx * my)) with (Z.pos mx * Z.pos my).
  pose proof (Zdigits2_spec (Zpos mx)). pose proof (Zdigits2_spec (Zpos my)).
  unfold fexp, emin in *. unfold prec, emax in *. lia.
Qed.

Lemma fadd_valid x y :
  valid x = true -> valid y = true -> valid (fadd x y) = true.
Proof.
  destruct x as [sx|sx| |sx mx ex], y as [sy|sy| |sy my ey]; intros Hx Hy;
    try reflexivity; try assumption.
  - destruct sx, sy; reflexivity.
  - destruct sx, sy; reflexivity.
  - unfold fadd. cbn [SFadd]. apply binary_normalize_valid.
Qed.

Lemma fsub_valid x y :
  valid x = true -> valid y = true -> valid (fsub x y) = true.
Proof.
  destruct x as [sx|sx| |sx mx ex], y as [sy|sy| |sy my ey]; intros Hx Hy;
    try reflexivity; try assumption.
  - destruct sx, sy; reflexivity.
  - destruct sx, sy; reflexivity.
  - unfold fsub. cbn [SFsub]. apply binary_normalize_valid.
Qed.

Lemma of_int_valid n : valid (of_int n) = true.
Proof. apply binary_normalize_valid. Qed.

Lemma fmul_comm x y : fmul x y = fmul y x.
Proof.
  destruct x as [sx|sx| |sx mx ex], y as [sy|sy| |sy my ey]; unfold fmul;
    cbn [SFmul]; try reflexivity; try (rewrite xorb_comm; reflexivity).
  rewrite xorb_comm, Pos.mul_comm, Z.add_comm. reflexivity.
Qed.

(** Multiplying by [1.0f] returns the very same float. *)
Lemma fmul_one_r x : valid x = true -> fmul x fone = x.
Proof.
  destruct x as [sx|sx| |sx mx ex]; try (destruct sx; reflexivity); try reflexivity.
  unfold valid, fmul. cbn [valid_binary]. unfold bounded.
  rewrite andb_true_iff, canonical_iff, Z.leb_le.
  intros [C Hb]. cbn [SFmul fone]. rewrite xorb_false_r.
  rewrite Pos.mul_comm. cbn [Pos.mul].
  unfold binary_round_aux, shr_fexp.
  cbn [Zdigits2 digits2_pos] in *.
  rewrite !Pos2Z.inj_succ.
  match goal with
  | |- context [shr _ _ (fexp prec emax ?a - ?b)] =>
      replace (fexp prec emax a - b) with 23
        by (unfold fexp, emin in *; unfold prec, emax in *; lia)
  end.
  cbn [shr shr_record_of_loc iter_pos shr_1 orb shr_m loc_of_shr_record
       round_nearest_even Zdigits2].
  replace (ex + -23 + 23) with ex by lia.
  rewrite C, Z.sub_diag. cbn [shr shr_m].
  apply Z.leb_le in Hb. rewrite Hb. reflexivity.
Qed.

Lemma fmul_one_l x : valid x = true -> fmul fone x = x.
Proof. intros Hx. rewrite fmul_comm. apply fmul_one_r, Hx. Qed.

(** [x == 0.0f] holds of the two zeros only, [x == 1.0f] of [1.0f] only. *)
Lemma feqb_zero x : feqb x fzero = true -> exists b, x = S754_zero b.
Proof.
  destruct x as [sx|sx| |sx mx ex]; unfold feqb, SFeqb; cbn [SFcompare fzero].
  - intros _. exists sx. reflexivity.
  - destruct sx; discriminate.
  - discriminate.
  - destruct sx; discriminate.
Qed.

Lemma feqb_one x : feqb x fone = true -> x = fone.
Proof.
  destruct x as [sx|sx| |sx mx ex]; unfold feqb, SFeqb; cbn [SFcompare fone];
    try discriminate; try (destruct sx; discriminate).
  destruct sx; [discriminate|].
  destruct (Z.compare ex (-23)) eqn:E; try discriminate.
  apply Z.compare_eq in E.
  destruct (Pos.compare_cont Eq mx 8388608) eqn:E'; try discriminate.
  apply Pos.compare_eq in E'. intros _. subst. reflexivity.
Qed.

End Operations.

(* ------------------------------------------------------------------ *)
(** * The transform evaluator *)

Section LocalTransform.
Variable lm : Glm.libm.
Hypothesis Hlm : libm_ok lm.

Lemma v4_scale_one v : v4_valid v = true -> Glm.v4_scale v fone = v.
Proof.
  destruct v as [a b c d]. unfold v4_valid. cbn [vx vy vz vw].
  rewrite !andb_true_iff. intros [[[Ha Hb] Hc] Hd].
  unfold Glm.v4_scale. cbn [vx vy vz vw smul Scalar_float].
  rewrite !fmul_one_r by assumption. reflexivity.
Qed.

Lemma scale_one m :
  cols012_valid m = true -> Glm.scale m (Vec3 fone fone fone) = m.
Proof.
  destruct m as [c0 c1 c2 c3]. unfold cols012_valid. cbn [col0 col1 col2].
  rewrite !andb_true_iff. intros [[H0 H1] H2].
  unfold Glm.scale. cbn [col0 col1 col2 col3 x3 y3 z3].
  rewrite !v4_scale_one by assumption. reflexivity.
Qed.

Lemma translate_identity_cols t :
  Glm.translate Glm.mat4_identity t
  = Mat4 (Vec4 fone fzero fzero fzero) (Vec4 fzero fone fzero fzero)
         (Vec4 fzero fzero fone fzero)
         (col3 (Glm.translate Glm.mat4_identity t)).
Proof. reflexivity. Qed.

Lemma normalize_z_axis : Glm.normalize z_axis = Vec3 fzero fzero fone.
Proof. vm_compute. reflexivity. Qed.

Lemma radians_zero b : Glm.radians (S754_zero b) = S754_zero b.
Proof. destruct b; vm_compute; reflexivity. Qed.

(** Rotating by [+0] or [-0] degrees leaves a translation matrix as it is. *)
Lemma rotate_zero t b :
  Glm.rotate lm (Glm.translate Glm.mat4_identity t) (S754_zero b) z_axis
  = Glm.translate Glm.mat4_identity t.
Proof.
  rewrite (translate_identity_cols t) at 2.
  unfold Glm.rotate. rewrite normalize_z_axis, radians_zero.
  rewrite (cosf_zero lm Hlm), (sinf_zero lm Hlm).
  cbn [col0 col1 col2 col3 Glm.translate Glm.mat4_identity].
  f_equal; destruct b; vm_compute; reflexivity.
Qed.

Ltac valid_float :=
  repeat first
    [ apply fadd_valid | apply fsub_valid | apply fmul_valid
    | apply (cosf_valid lm Hlm) | apply (sinf_valid lm Hlm)
    | apply of_int_valid | assumption | reflexivity ].

Lemma rotate_cols_valid m angle :
  cols012_valid m = true ->
  cols012_valid (Glm.rotate lm m angle z_axis) = true.
Proof.
  destruct m as [[a0 a1 a2 a3] [b0 b1 b2 b3] [c0 c1 c2 c3] c]. 
  unfold cols012_valid, v4_valid. cbn [col0 col1 col2 vx vy vz vw].
  rewrite !andb_true_iff.
  intros [[[[[Ha0 Ha1] Ha2] Ha3] [[[Hb0 Hb1] Hb2] Hb3]] [[[Hc0 Hc1] Hc2] Hc3]].
  unfold Glm.rotate. rewrite normalize_z_axis.
  cbn [col0 col1 col2 col3 vx vy vz vw x3 y3 z3 Glm.v4_add Glm.v4_scale
       sadd ssub smul Scalar_float].
  repeat split; valid_float.
Qed.

Lemma translate_cols_valid t :
  cols012_valid (Glm.translate Glm.mat4_identity t) = true.
Proof. reflexivity. Qed.

(** The two local transforms agree entry by entry. *)
Lemma local_transform_short_circuit jp :
  getJointLocalTransform lm jp = localTransform_always_multiply lm jp.
Proof.
  unfold getJointLocalTransform, localTransform_always_multiply.
  change (Vec3 (of_int 0) (of_int 0) (of_int 1)) with z_axis.
  change (flit 0 1) with fzero. change (flit 1 1) with fone.
  unfold fneb.
  destruct (SFeqb (rotation jp) fzero) eqn:Er; cbn [negb].
  - destruct (feqb_zero _ Er) as [b ->]. rewrite rotate_zero.
    destruct (SFeqb (scale jp) fone) eqn:Es; cbn [negb]; [|reflexivity].
    rewrite (feqb_one _ Es). symmetry. apply scale_one, translate_cols_valid.
  - destruct (SFeqb (scale jp) fone) eqn:Es; cbn [negb]; [|reflexivity].
    rewrite (feqb_one _ Es). symmetry.
    apply scale_one, rotate_cols_valid, translate_cols_valid.
Qed.

End LocalTransform.

(* ------------------------------------------------------------------ *)
(** * The pose blender *)

Section Arrays.
Context {A : Type}.

Lemma update_nth_length i (v : A) l : List.length (update_nth i v l) = List.length l.
Proof.
  revert i; induction l as [|h t IH]; intros [|i]; cbn; try reflexivity.
  rewrite IH. reflexivity.
Qed.

Lemma nth_update_nth_eq i (v d : A) l :
  (i < List.length l)%nat -> nth i (update_nth i v l) d = v.
Proof.
  revert i; induction l as [|h t IH]; intros [|i] Hi; cbn in *; try lia.
  - reflexivity.
  - apply IH. lia.
Qed.

Lemma nth_update_nth_neq i j (v d : A) l :
  i <> j -> nth j (update_nth i v l) d = nth j l d.
Proof.
  revert i j; induction l as [|h t IH]; intros [|i] [|j] Hij; cbn;
    try reflexivity; try congruence.
  apply IH. congruence.
Qed.

Lemma update_nth_twice i (v w : A) l :
  update_nth i w (update_nth i v l) = update_nth i w l.
Proof.
  revert i; induction l as [|h t IH]; intros [|i]; cbn; try reflexivity.
  rewrite IH. reflexivity.
Qed.

Lemma update_nth_app (pre : list A) a suf v :
  update_nth (List.length pre) v (pre ++ a :: suf) = pre ++ v :: suf.
Proof. induction pre as [|h t IH]; cbn; [reflexivity|rewrite IH; reflexivity]. Qed.

(** A loop [for (j = 0; j < n; ++j) a[j] = h(j, a[j]);] maps [h] over [a]. *)
Lemma fold_update_nth (h : nat -> A -> A) (d : A) suf : forall pre,
  fold_left (fun cur j => update_nth j (h j (nth j cur d)) cur)
            (seq (List.length pre) (List.length suf)) (pre ++ suf)
  = pre ++ map (fun j => h j (nth j (pre ++ suf) d))
               (seq (List.length pre) (List.length suf)).
Proof.
  induction suf as [|a suf IH]; intros pre; cbn [List.length seq fold_left map].
  - reflexivity.
  - rewrite update_nth_app.
    assert (E : nth (List.length pre) (pre ++ a :: suf) d = a).
    { rewrite app_nth2, Nat.sub_diag by lia. reflexivity. }
    rewrite E.
    replace (pre ++ h (List.length pre) a :: suf)
      with ((pre ++ [h (List.length pre) a]) ++ suf)
      by (rewrite <- app_assoc; reflexivity).
    replace (S (List.length pre)) with (List.length (pre ++ [h (List.length pre) a]))
      by (rewrite length_app; cbn; lia).
    rewrite IH, <- app_assoc. cbn [app]. f_equal. f_equal.
    apply map_ext_in. intros j Hj. apply in_seq in Hj.
    rewrite length_app in Hj. cbn in Hj.
    rewrite <- !app_assoc. cbn [app].
    rewrite !(app_nth2 pre) by lia.
    destruct (j - List.length pre)%nat as [|k] eqn:Ek; [lia|reflexivity].
Qed.

Lemma fold_update_nth_all (h : nat -> A -> A) (d : A) l :
  fold_left (fun cur j => update_nth j (h j (nth j cur d)) cur)
            (seq 0 (List.length l)) l
  = map (fun j => h j (nth j l d)) (seq 0 (List.length l)).
Proof. apply (fold_update_nth h d l []). Qed.

End Arrays.

Section Blend.
Variables f g : float.

Lemma upd_current_twice j h1 h2 st :
  (j < List.length (joints (current_pose st)))%nat ->
  upd_current j h2 (upd_current j h1 st)
  = upd_current j (fun jp => h2 (h1 jp)) st.
Proof.
  intros Hj. unfold upd_current, set_joint, joint.
  cbn [viewport poses left_pose right_pose current_pose joints].
  rewrite nth_update_nth_eq by assumption.
  rewrite update_nth_twice. reflexivity.
Qed.

Lemma upd_current_length j h st :
  List.length (joints (current_pose (upd_current j h st)))
  = List.length (joints (current_pose st)).
Proof. cbn. apply update_nth_length. Qed.

(** One iteration rewrites joint [j] of [current_pose] and nothing else. *)
Lemma mouseMove_joint_spec st j :
  (j < List.length (joints (current_pose st)))%nat ->
  mouseMove_joint f g st j
  = upd_current j
      (blended_joint f g (poses st) (left_pose st) (right_pose st) j) st.
Proof.
  intros Hj. unfold mouseMove_joint.
  destruct (parent (joint (current_pose st) j)) eqn:Ep;
    cbn [poses left_pose right_pose upd_current];
    rewrite !upd_current_twice by (rewrite ?upd_current_length; assumption);
    unfold upd_current; do 2 f_equal;
    unfold blended_joint, with_translation, with_scale, with_rotation,
      with_color, with_parent;
    cbn [parent color translation rotation scale];
    rewrite ?Ep; reflexivity.
Qed.

(** The loop of [mouseMove] over any list of joint numbers. *)
Lemma mouseMove_loop_spec js : forall st,
  Forall (fun j => (j < List.length (joints (current_pose st)))%nat) js ->
  fold_left (mouseMove_joint f g) js st
  = {| viewport := viewport st;
       poses := poses st;
       left_pose := left_pose st;
       right_pose := right_pose st;
       current_pose :=
         {| joints :=
              fold_left
                (fun cur j =>
                   update_nth j
                     (blended_joint f g (poses st) (left_pose st) (right_pose st) j
                        (nth j cur JointPose_zero)) cur)
                js (joints (current_pose st)) |} |}.
Proof.
  induction js as [|j js IH]; intros st Hjs; cbn [fold_left].
  - destruct st as [v ps l r [c]]. reflexivity.
  - inversion Hjs as [|? ? Hj Hjs']; subst.
    rewrite mouseMove_joint_spec by assumption.
    rewrite IH.
    + reflexivity.
    + rewrite upd_current_length. exact Hjs'.
Qed.

(** The blended pose, joint by joint. *)
Lemma blend_spec st :
  Pose_wf (pose (poses st) (left_pose st)) = true ->
  blend f g st
  = {| viewport := viewport st;
       poses := poses st;
       left_pose := left_pose st;
       right_pose := right_pose st;
       current_pose :=
         {| joints :=
              map (fun j =>
                     blended_joint f g (poses st) (left_pose st) (right_pose st) j
                       (joint (pose (poses st) (left_pose st)) j))
                  (seq 0 JOINT_COUNT) |} |}.
Proof.
  unfold Pose_wf. intros Hwf. apply Nat.eqb_eq in Hwf.
  unfold blend. rewrite mouseMove_loop_spec.
  - cbn [viewport poses left_pose right_pose current_pose].
    rewrite <- Hwf. rewrite fold_update_nth_all. reflexivity.
  - cbn [current_pose]. rewrite Hwf. apply Forall_forall.
    intros j Hj. apply in_seq in Hj. lia.
Qed.

Lemma blend_joint st j :
  Pose_wf (pose (poses st) (left_pose st)) = true ->
  (j < JOINT_COUNT)%nat ->
  joint (current_pose (blend f g st)) j
  = blended_joint f g (poses st) (left_pose st) (right_pose st) j
      (joint (pose (poses st) (left_pose st)) j).
Proof.
  intros Hwf Hj. rewrite blend_spec by assumption.
  unfold joint at 1. cbn [current_pose joints].
  rewrite (nth_indep _ _ (blended_joint f g (poses st) (left_pose st) (right_pose st) 0
                            (joint (pose (poses st) (left_pose st)) 0)))
    by (rewrite length_map, length_seq; assumption).
  rewrite (map_nth (fun j => blended_joint f g (poses st) (left_pose st) (right_pose st) j
                               (joint (pose (poses st) (left_pose st)) j))).
  rewrite seq_nth by assumption. reflexivity.
Qed.

(** The loop never writes to anything but [current_pose]. *)
Lemma mouseMove_joint_frame st j :
  viewport (mouseMove_joint f g st j) = viewport st
  /\ poses (mouseMove_joint f g st j) = poses st
  /\ left_pose (mouseMove_joint f g st j) = left_pose st
  /\ right_pose (mouseMove_joint f g st j) = right_pose st.
Proof.
  unfold mouseMove_joint.
  destruct (parent (joint (current_pose st) j)); cbn; repeat split; reflexivity.
Qed.

Lemma mouseMove_loop_frame js : forall st,
  viewport (fold_left (mouseMove_joint f g) js st) = viewport st
  /\ poses (fold_left (mouseMove_joint f g) js st) = poses st
  /\ left_pose (fold_left (mouseMove_joint f g) js st) = left_pose st
  /\ right_pose (fold_left (mouseMove_joint f g) js st) = right_pose st.
Proof.
  induction js as [|j js IH]; intros st; cbn [fold_left].
  - repeat split; reflexivity.
  - destruct (IH (mouseMove_joint f g st j)) as (Hv & Hp & Hl & Hr).
    destruct (mouseMove_joint_frame st j) as (Hv' & Hp' & Hl' & Hr').
    rewrite Hv, Hp, Hl, Hr, Hv', Hp', Hl', Hr'. repeat split; reflexivity.
Qed.

End Blend.

Section Endpoints.

Lemma regular_inv x :
  regular x = true ->
  valid x = true /\
  (x = S754_zero false \/ exists s m e, x = S754_finite s m e).
Proof.
  unfold regular. rewrite !andb_true_iff. intros [[Hv Hf] Hz]. split; [exact Hv|].
  destruct x as [[|]|s| |s m e]; cbn in *; try discriminate.
  - left. reflexivity.
  - right. exists s, m, e. reflexivity.
Qed.

(** [a * 1 + b * 0 = a] *)
Lemma lerp_at_zero a b :
  regular a = true -> regular b = true ->
  fadd (fmul a (fsub (of_int 1) fzero)) (fmul b fzero) = a.
Proof.
  intros Ha Hb. change (fsub (of_int 1) fzero) with fone.
  destruct (regular_inv a Ha) as [Va Ca], (regular_inv b Hb) as [Vb Cb].
  rewrite fmul_one_r by assumption.
  destruct Ca as [->|(sa & ma & ea & ->)], Cb as [->|(sb & mb & eb & ->)];
    try reflexivity; destruct sb; reflexivity.
Qed.

(** [a * 0 + b * 1 = b] *)
Lemma lerp_at_one a b :
  regular a = true -> regular b = true ->
  fadd (fmul a (fsub (of_int 1) fone)) (fmul b fone) = b.
Proof.
  intros Ha Hb. change (fsub (of_int 1) fone) with fzero.
  destruct (regular_inv a Ha) as [Va Ca], (regular_inv b Hb) as [Vb Cb].
  rewrite (fmul_one_r b) by assumption.
  destruct Ca as [->|(sa & ma & ea & ->)], Cb as [->|(sb & mb & eb & ->)];
    try reflexivity; destruct sa; reflexivity.
Qed.

Lemma JointPose_regular_inv jp :
  JointPose_regular jp = true ->
  regular (vx (color jp)) = true /\ regular (vy (color jp)) = true
  /\ regular (vz (color jp)) = true /\ regular (vw (color jp)) = true
  /\ regular (x2 (translation jp)) = true /\ regular (y2 (translation jp)) = true
  /\ regular (rotation jp) = true /\ regular (scale jp) = true.
Proof.
  unfold JointPose_regular. rewrite !andb_true_iff. tauto.
Qed.

Lemma Pose_regular_joint p j :
  Pose_wf p = true -> Pose_regular p = true -> (j < JOINT_COUNT)%nat ->
  JointPose_regular (joint p j) = true.
Proof.
  unfold Pose_wf, Pose_regular, joint. intros Hwf Hreg Hj.
  apply Nat.eqb_eq in Hwf. rewrite forallb_forall in Hreg.
  apply Hreg, nth_In. lia.
Qed.

Lemma blended_joint_at_zero ps l r j old a b :
  a = joint (pose ps l) j -> b = joint (pose ps r) j ->
  JointPose_regular a = true -> JointPose_regular b = true ->
  same_interpolated_fields
    (blended_joint fzero (fsub (of_int 1) fzero) ps l r j old) a.
Proof.
  intros -> -> Ha Hb.
  apply JointPose_regular_inv in Ha, Hb.
  destruct Ha as (A1 & A2 & A3 & A4 & A5 & A6 & A7 & A8).
  destruct Hb as (B1 & B2 & B3 & B4 & B5 & B6 & B7 & B8).
  unfold same_interpolated_fields, blended_joint.
  cbn [color rotation scale translation].
  unfold Glm.v4_add, Glm.v4_scale, Glm.v2_add, Glm.v2_scale.
  cbn [vx vy vz vw x2 y2 sadd smul Scalar_float].
  rewrite !lerp_at_zero by assumption.
  repeat split.
  - destruct (color (joint (pose ps l) j)); reflexivity.
  - destruct (translation (joint (pose ps l) j)); reflexivity.
Qed.

Lemma blended_joint_at_one ps l r j old a b :
  a = joint (pose ps l) j -> b = joint (pose ps r) j ->
  JointPose_regular a = true -> JointPose_regular b = true ->
  same_interpolated_fields
    (blended_joint fone (fsub (of_int 1) fone) ps l r j old) b.
Proof.
  intros -> -> Ha Hb.
  apply JointPose_regular_inv in Ha, Hb.
  destruct Ha as (A1 & A2 & A3 & A4 & A5 & A6 & A7 & A8).
  destruct Hb as (B1 & B2 & B3 & B4 & B5 & B6 & B7 & B8).
  unfold same_interpolated_fields, blended_joint.
  cbn [color rotation scale translation].
  unfold Glm.v4_add, Glm.v4_scale, Glm.v2_add, Glm.v2_scale.
  cbn [vx vy vz vw x2 y2 sadd smul Scalar_float].
  rewrite !lerp_at_one by assumption.
  repeat split.
  - destruct (color (joint (pose ps r) j)); reflexivity.
  - destruct (translation (joint (pose ps r) j)); reflexivity.
Qed.

End Endpoints.

(* ------------------------------------------------------------------ *)
(** * Properties of the program *)

Lemma globals_wf_pose st i :
  globals_wf st = true -> (i < N_POSES)%nat ->
  Pose_wf (pose (poses st) i) = true.
Proof.
  unfold globals_wf. rewrite !andb_true_iff.
  intros [[[[Hlen Hall] _] _] _] Hi.
  apply Nat.eqb_eq in Hlen. rewrite forallb_forall in Hall.
  apply Hall. unfold pose. apply nth_In. lia.
Qed.

Lemma globals_wf_left st :
  globals_wf st = true -> Pose_wf (pose (poses st) (left_pose st)) = true.
Proof.
  intros Hwf. apply globals_wf_pose; [exact Hwf|].
  unfold globals_wf in Hwf. rewrite !andb_true_iff in Hwf.
  destruct Hwf as [[_ Hl] _]. apply Nat.ltb_lt in Hl. exact Hl.
Qed.

Lemma globals_wf_right st :
  globals_wf st = true -> Pose_wf (pose (poses st) (right_pose st)) = true.
Proof.
  intros Hwf. apply globals_wf_pose; [exact Hwf|].
  unfold globals_wf in Hwf. rewrite !andb_true_iff in Hwf.
  destruct Hwf as [_ Hr]. apply Nat.ltb_lt in Hr. exact Hr.
Qed.

(** C4, as amended.  For source poses whose interpolated fields are finite
    floats other than [-0.0f], blending with [t = 0] reproduces the
    left-hand pose and blending with [t = 1] reproduces the right-hand pose:
    the colour, rotation, scale and translation of each of the 7 joints of
    the result are the same floats, bit for bit, as those of the endpoint
    pose. *)
Theorem blend_endpoints st j :
  globals_wf st = true ->
  Pose_regular (pose (poses st) (left_pose st)) = true ->
  Pose_regular (pose (poses st) (right_pose st)) = true ->
  (j < JOINT_COUNT)%nat ->
  same_interpolated_fields
    (joint (current_pose (blend_at fzero st)) j)
    (joint (pose (poses st) (left_pose st)) j)
  /\ same_interpolated_fields
       (joint (current_pose (blend_at fone st)) j)
       (joint (pose (poses st) (right_pose st)) j).
Proof.
  intros Hwf HA HB Hj.
  pose proof (globals_wf_left st Hwf) as HwA.
  pose proof (globals_wf_right st Hwf) as HwB.
  pose proof (Pose_regular_joint _ j HwA HA Hj) as Ra.
  pose proof (Pose_regular_joint _ j HwB HB Hj) as Rb.
  unfold blend_at. rewrite !blend_joint by assumption. split.
  - eapply blended_joint_at_zero; [reflexivity|reflexivity|exact Ra|exact Rb].
  - eapply blended_joint_at_one; [reflexivity|reflexivity|exact Ra|exact Rb].
Qed.

Lemma blend_endpoints_witness :
  globals_wf (globals_started 800 800) = true
  /\ Pose_regular (pose (poses (globals_started 800 800))
                        (left_pose (globals_started 800 800))) = true
  /\ Pose_regular (pose (poses (globals_started 800 800))
                        (right_pose (globals_started 800 800))) = true
  /\ (4 < JOINT_COUNT)%nat
  /\ same_interpolated_fields
       (joint (current_pose (blend_at fzero (globals_started 800 800))) 4)
       (joint (pose (poses (globals_started 800 800))
                    (left_pose (globals_started 800 800))) 4)
  /\ same_interpolated_fields
       (joint (current_pose (blend_at fone (globals_started 800 800))) 4)
       (joint (pose (poses (globals_started 800 800))
                    (right_pose (globals_started 800 800))) 4).
Proof.
  assert (H1 : globals_wf (globals_started 800 800) = true) by (vm_compute; reflexivity).
  assert (H2 : Pose_regular (pose (poses (globals_started 800 800))
                 (left_pose (globals_started 800 800))) = true)
    by (vm_compute; reflexivity).
  assert (H3 : Pose_regular (pose (poses (globals_started 800 800))
                 (right_pose (globals_started 800 800))) = true)
    by (vm_compute; reflexivity).
  assert (H4 : (4 < JOINT_COUNT)%nat) by (unfold JOINT_COUNT; lia).
  split; [exact H1|]. split; [exact H2|]. split; [exact H3|]. split; [exact H4|].
  exact (blend_endpoints (globals_started 800 800) 4 H1 H2 H3 H4).
Defined.

(** C4, counterexample.  With [rotation = -0.0f] in joint 0 of the left-hand
    pose and [rotation = 0.0f] in joint 0 of the right-hand pose (same
    hierarchy in both), blending with [t = 0] gives [-0.0f * 1 + 0.0f * 0 =
    +0.0f]: the sign bit of the result differs from that of the endpoint. *)
Lemma blend_endpoint_negative_zero :
  topology (pose (poses globals_negative_zero) (left_pose globals_negative_zero))
  = topology (pose (poses globals_negative_zero) (right_pose globals_negative_zero))
  /\ rotation (joint (pose (poses globals_negative_zero)
                           (left_pose globals_negative_zero)) 0) = S754_zero true
  /\ rotation (joint (current_pose (blend_at fzero globals_negative_zero)) 0)
     = S754_zero false
  /\ ~ same_interpolated_fields
         (joint (current_pose (blend_at fzero globals_negative_zero)) 0)
         (joint (pose (poses globals_negative_zero)
                      (left_pose globals_negative_zero)) 0).
Proof.
  assert (E : rotation (joint (current_pose (blend_at fzero globals_negative_zero)) 0)
              = S754_zero false) by (vm_compute; reflexivity).
  assert (E' : rotation (joint (pose (poses globals_negative_zero)
                 (left_pose globals_negative_zero)) 0) = S754_zero true)
    by (vm_compute; reflexivity).
  split; [|split; [|split]].
  - vm_compute. reflexivity.
  - exact E'.
  - exact E.
  - intros (_ & Hr & _). rewrite E, E' in Hr. discriminate.
Qed.

(** C9.  A pointer-move event leaves the pose table as it was: every field
    of every joint of every named pose is unchanged (so are [left_pose],
    [right_pose] and [viewport]); only [current_pose] is written. *)
Theorem mouseMove_frame x y st :
  poses (mouseMove x y st) = poses st
  /\ left_pose (mouseMove x y st) = left_pose st
  /\ right_pose (mouseMove x y st) = right_pose st
  /\ viewport (mouseMove x y st) = viewport st.
Proof.
  unfold mouseMove, blend.
  match goal with
  | |- context [fold_left ?step ?js ?st0] =>
      destruct (mouseMove_loop_frame (blend_factor x st)
                  (fsub (of_int 1) (blend_factor x st)) js st0)
        as (Hv & Hp & Hl & Hr)
  end.
  rewrite Hv, Hp, Hl, Hr. repeat split; reflexivity.
Qed.

(** C10.  Whatever the uninitialised [v] held, every triangle index pushed
    by [initMeshes] lies in [1, number of vertices): each one designates a
    vertex, and none designates the placeholder at position 0.  There are 43
    vertices and 40 triangles. *)
Theorem initMeshes_indices_in_range garbage :
  List.length (vertices (initMeshes garbage)) = 43%nat
  /\ List.length (indices (initMeshes garbage)) = 120%nat
  /\ Forall (fun i => 1 <= i < Z.of_nat (List.length (vertices (initMeshes garbage))))
            (indices (initMeshes garbage)).
Proof.
  split; [reflexivity|]. split; [reflexivity|].
  apply Forall_forall. intros i Hi.
  assert (E : forallb (fun i => (1 <=? i) && (i <? 43)) (indices (initMeshes garbage)) = true)
    by (vm_compute; reflexivity).
  rewrite forallb_forall in E. specialize (E i Hi).
  apply andb_true_iff in E. destruct E as [E1 E2].
  apply Z.leb_le in E1. apply Z.ltb_lt in E2.
  replace (List.length (vertices (initMeshes garbage))) with 43%nat by reflexivity.
  lia.
Qed.

(** C5, evaluated.  Whatever the uninitialised [v] held: the authored
    vertices 1, 2 and 16 have the weights [0.6f, 0.1f, 0.1f], whose sum is
    not [1.0f]; the weights of every other authored vertex sum to [1.0f];
    and the three joint indices of each of the 42 authored vertices are
    below the joint count. *)
Theorem initMeshes_weights garbage :
  map joint_weights
      [nth 1 (vertices (initMeshes garbage)) garbage;
       nth 2 (vertices (initMeshes garbage)) garbage;
       nth 16 (vertices (initMeshes garbage)) garbage]
  = repeat (Arr3 (flit 6 10) (flit 1 10) (flit 1 10)) 3
  /\ weight_sum (nth 1 (vertices (initMeshes garbage)) garbage)
     = S754_finite false 13421774 (-24)
  /\ feqb (weight_sum (nth 1 (vertices (initMeshes garbage)) garbage)) (flit 1 1) = false
  /\ weight_defects (tl (vertices (initMeshes garbage))) = [0; 1; 15]%nat
  /\ forallb indices_in_range (tl (vertices (initMeshes garbage))) = true.
Proof.
  split; [vm_compute; reflexivity|].
  split; [vm_compute; reflexivity|].
  split; [vm_compute; reflexivity|].
  split; vm_compute; reflexivity.
Qed.

(** C7, evaluated.  When [initPoses] returns, the parent of every non-root
    joint of [current_pose] is the address of a joint of [poses[0]]: the
    assignment [current_pose = poses[0]] copies the pointers as they are.
    After any pointer-move event the parents are the addresses of joints of
    [current_pose] itself, with the hierarchy of the source poses. *)
Theorem current_pose_parents :
  map parent (joints (current_pose (initPoses globals_init)))
  = [Null; addr_poses 0 0; addr_poses 0 0; addr_poses 0 0;
     addr_poses 0 1; addr_poses 0 2; addr_poses 0 3]
  /\ existsb points_into_current
       (map parent (joints (current_pose (initPoses globals_init)))) = false
  /\ forall x y width height,
       let st := mouseMove x y (globals_started width height) in
       map parent (joints (current_pose st))
       = [Null; addr_current 0; addr_current 0; addr_current 0;
          addr_current 1; addr_current 2; addr_current 3]
       /\ topology (current_pose st) = topology (pose (poses st) (left_pose st)).
Proof.
  split; [vm_compute; reflexivity|]. split; [vm_compute; reflexivity|].
  intros x y width height st. subst st. unfold mouseMove.
  generalize (blend_factor x (globals_started width height)). intros f.
  generalize (fsub (of_int 1) f). intros g.
  split; vm_compute; reflexivity.
Qed.

Section ModelTransform.
Variable lm : Glm.libm.

Lemma chain_S n g jp :
  chain (S n) g jp
  = match parent jp with
    | Null => Some [jp]
    | p =>
        match load g p with
        | Some parent_pose => option_map (cons jp) (chain n g parent_pose)
        | None => None
        end
    end.
Proof. reflexivity. Qed.

Lemma chain_nonempty n : forall g jp l,
  chain n g jp = Some l -> l <> [] /\ (List.length l <= n)%nat.
Proof.
  induction n as [|n IH]; intros g jp l H; cbn [chain] in H; [discriminate|].
  destruct (parent jp) eqn:Ep.
  - injection H as <-. split; [discriminate|cbn; lia].
  - destruct (load g (Addr b off)) as [pj|]; [|discriminate].
    destruct (chain n g pj) as [l'|] eqn:El; [|discriminate].
    injection H as <-. destruct (IH _ _ _ El) as [_ Hlen].
    split; [discriminate|cbn; lia].
  - cbn [load] in H. discriminate.
Qed.

(** With fuel for every joint of the chain, [getJointTransform] returns the
    product of the local transforms along it. *)
Lemma getJointTransform_chain n : forall g jp l,
  chain n g jp = Some l ->
  forall fuel, (List.length l <= fuel)%nat ->
  getJointTransform lm fuel g jp = Some (chain_transform lm l).
Proof.
  induction n as [|n IH]; intros g jp l H fuel Hfuel; cbn [chain] in H; [discriminate|].
  destruct (parent jp) eqn:Ep.
  - injection H as <-. destruct fuel as [|fuel]; [cbn in Hfuel; lia|].
    cbn [getJointTransform]. rewrite Ep. reflexivity.
  - destruct (load g (Addr b off)) as [pj|] eqn:Eload; [|discriminate].
    destruct (chain n g pj) as [l'|] eqn:El; [|discriminate].
    injection H as <-. destruct fuel as [|fuel]; [cbn in Hfuel; lia|].
    cbn [getJointTransform]. rewrite Ep, Eload.
    rewrite (IH _ _ _ El) by (cbn in Hfuel; lia).
    destruct (chain_nonempty _ _ _ _ El) as [Hne _].
    destruct l' as [|a l']; [congruence|]. reflexivity.
  - cbn [load] in H. discriminate.
Qed.

End ModelTransform.

(** C2.  For a joint whose chain of parents reaches a root within the joint
    count, [getJointTransform] returns with any fuel of at least the joint
    count; what it returns is the local transform when the parent is null
    and [getJointTransform(parent) * getJointLocalTransform(joint)]
    otherwise; and it is the same matrix in every state of the globals in
    which the chain of the joint holds the same joints. *)
Theorem getJointTransform_total lm g joint_pose :
  (exists l, chain JOINT_COUNT g joint_pose = Some l) ->
  forall fuel, (JOINT_COUNT <= fuel)%nat ->
  exists m,
    getJointTransform lm fuel g joint_pose = Some m
    /\ (parent joint_pose = Null -> m = getJointLocalTransform lm joint_pose)
    /\ (parent joint_pose <> Null ->
        exists parent_pose mp,
          load g (parent joint_pose) = Some parent_pose
          /\ getJointTransform lm fuel g parent_pose = Some mp
          /\ m = Glm.mat4_mul mp (getJointLocalTransform lm joint_pose))
    /\ (forall g' fuel',
          (JOINT_COUNT <= fuel')%nat ->
          chain JOINT_COUNT g' joint_pose = chain JOINT_COUNT g joint_pose ->
          getJointTransform lm fuel' g' joint_pose = Some m).
Proof.
  intros [l Hl] fuel Hfuel.
  destruct (chain_nonempty _ _ _ _ Hl) as [Hne Hlen].
  exists (chain_transform lm l). split; [|split; [|split]].
  - apply (getJointTransform_chain lm _ _ _ _ Hl). lia.
  - intros Ep. change JOINT_COUNT with (S 6) in Hl. rewrite chain_S, Ep in Hl.
    injection Hl as Hl. subst l. reflexivity.
  - intros Ep. change JOINT_COUNT with (S 6) in Hl. rewrite chain_S in Hl.
    destruct (parent joint_pose) eqn:Ep'; [congruence| |cbn [load] in Hl; discriminate].
    destruct (load g (Addr b off)) as [pj|] eqn:Eload; [|discriminate].
    destruct (chain 6 g pj) as [l'|] eqn:El; [|discriminate].
    cbn [option_map] in Hl. injection Hl as Hl. subst l.
    destruct (chain_nonempty _ _ _ _ El) as [Hne' Hlen'].
    exists pj, (chain_transform lm l'). split; [reflexivity|]. split.
    + apply (getJointTransform_chain lm _ _ _ _ El). unfold JOINT_COUNT in Hfuel. lia.
    + destruct l' as [|a l']; [congruence|]. reflexivity.
  - intros g' fuel' Hfuel' E. rewrite Hl in E.
    apply (getJointTransform_chain lm _ _ _ _ E). lia.
Qed.

Lemma getJointTransform_total_witness :
  let g := initPoses globals_init in
  let joint_pose := joint (pose (poses g) 0) 4 in
  (exists l, chain JOINT_COUNT g joint_pose = Some l)
  /\ (JOINT_COUNT <= 7)%nat
  /\ exists m,
       getJointTransform libm_coarse 7 g joint_pose = Some m
       /\ (parent joint_pose = Null -> m = getJointLocalTransform libm_coarse joint_pose)
       /\ (parent joint_pose <> Null ->
           exists parent_pose mp,
             load g (parent joint_pose) = Some parent_pose
             /\ getJointTransform libm_coarse 7 g parent_pose = Some mp
             /\ m = Glm.mat4_mul mp (getJointLocalTransform libm_coarse joint_pose))
       /\ (forall g' fuel',
             (JOINT_COUNT <= fuel')%nat ->
             chain JOINT_COUNT g' joint_pose = chain JOINT_COUNT g joint_pose ->
             getJointTransform libm_coarse fuel' g' joint_pose = Some m).
Proof.
  intros g joint_pose.
  assert (H1 : exists l, chain JOINT_COUNT g joint_pose = Some l).
  { eexists. vm_compute. reflexivity. }
  assert (H2 : (JOINT_COUNT <= 7)%nat) by (unfold JOINT_COUNT; lia).
  split; [exact H1|]. split; [exact H2|].
  exact (getJointTransform_total libm_coarse g joint_pose H1 7%nat H2).
Defined.

Lemma libm_coarse_ok : libm_ok libm_coarse.
Proof.
  split.
  - intros [s|s| |s m e]; reflexivity.
  - intros [s|s| |s m e]; reflexivity.
  - reflexivity.
  - reflexivity.
Qed.

(** C3.  With a C library that returns floats and is exact at zero, the
    matrix [getJointLocalTransform] returns is, entry by entry and bit for
    bit, the matrix of the same GLM calls with neither test (translate,
    rotate, scale, always); and the model transform of a joint with zero
    translation, zero rotation, unit scale and no parent is the identity
    matrix. *)
Theorem getJointLocalTransform_short_circuit lm joint_pose :
  libm_ok lm ->
  getJointLocalTransform lm joint_pose = localTransform_always_multiply lm joint_pose
  /\ (parent joint_pose = Null ->
      feqb (x2 (translation joint_pose)) fzero = true ->
      feqb (y2 (translation joint_pose)) fzero = true ->
      feqb (rotation joint_pose) fzero = true ->
      feqb (scale joint_pose) fone = true ->
      forall g fuel,
        getJointTransform lm (S fuel) g joint_pose = Some Glm.mat4_identity).
Proof.
  intros Hlm. split; [apply local_transform_short_circuit, Hlm|].
  intros Ep Hx Hy Hr Hs g fuel.
  cbn [getJointTransform]. rewrite Ep. f_equal.
  unfold getJointLocalTransform.
  change (flit 0 1) with fzero. change (flit 1 1) with fone.
  unfold fneb. unfold feqb in Hr, Hs. rewrite Hr, Hs. cbn [negb].
  destruct (feqb_zero _ Hx) as [bx ->], (feqb_zero _ Hy) as [by' ->].
  destruct bx, by'; vm_compute; reflexivity.
Qed.

Lemma getJointLocalTransform_short_circuit_witness :
  let g := initPoses globals_init in
  let joint_pose := joint (pose (poses g) 0) 0 in
  libm_ok libm_coarse
  /\ getJointLocalTransform libm_coarse joint_pose
     = localTransform_always_multiply libm_coarse joint_pose
  /\ parent joint_pose = Null
  /\ feqb (x2 (translation joint_pose)) fzero = true
  /\ feqb (y2 (translation joint_pose)) fzero = true
  /\ feqb (rotation joint_pose) fzero = true
  /\ feqb (scale joint_pose) fone = true
  /\ getJointTransform libm_coarse 1 g joint_pose = Some Glm.mat4_identity.
Proof.
  intros g joint_pose.
  destruct (getJointLocalTransform_short_circuit libm_coarse joint_pose libm_coarse_ok)
    as [Hlocal Hanchor].
  assert (H1 : parent joint_pose = Null) by reflexivity.
  assert (H2 : feqb (x2 (translation joint_pose)) fzero = true) by reflexivity.
  assert (H3 : feqb (y2 (translation joint_pose)) fzero = true) by reflexivity.
  assert (H4 : feqb (rotation joint_pose) fzero = true) by reflexivity.
  assert (H5 : feqb (scale joint_pose) fone = true) by reflexivity.
  split; [exact libm_coarse_ok|]. split; [exact Hlocal|].
  split; [exact H1|]. split; [exact H2|]. split; [exact H3|].
  split; [exact H4|]. split; [exact H5|].
  exact (Hanchor H1 H2 H3 H4 H5 g 0%nat).
Defined.

(* ------------------------------------------------------------------ *)
(** * The skinning pipeline *)

Section Skinning.
Local Open Scope Qc_scope.

Lemma accumulate_identity (u : Shader.uniforms (T := Qc)) v i w o :
  composed_identity_at u i ->
  exists c,
    nth_error (Shader.current_pose_colors u) i = Some c
    /\ Shader.accumulate u v i w o
       = Some {| Shader.gl_Position :=
                   Glm.v4_add (Shader.gl_Position o)
                     (Glm.v4_lscale w (Glm.mat4_mul_vec Glm.mat4_identity v));
                 Shader.color := Glm.v4_add (Shader.color o) (Glm.v4_lscale w c) |}.
Proof.
  intros (cur & inv & c & Hcur & Hinv & Hc & Hid).
  exists c. split; [exact Hc|].
  unfold Shader.accumulate. rewrite Hc, Hcur, Hinv, Hid. reflexivity.
Qed.

(** C1.  In exact arithmetic, for a vertex whose three weights sum to 1 and
    whose three joint indices each designate a joint with
    [current_pose[i] * bind_pose_inv[i]] the identity, the vertex shader
    returns [gl_Position = vec4(position, 0, 1)]: the bind-space position,
    unchanged. *)
Theorem skinning_identity (u : Shader.uniforms (T := Qc)) (a : Shader.attributes (T := Qc)) :
  Shader.joint_0_weight a + Shader.joint_1_weight a + Shader.joint_2_weight a = 1 ->
  composed_identity_at u (Shader.joint_0_index a) ->
  composed_identity_at u (Shader.joint_1_index a) ->
  composed_identity_at u (Shader.joint_2_index a) ->
  exists o,
    Shader.main u a = Some o
    /\ Shader.gl_Position o
       = Vec4 (x2 (Shader.position a)) (y2 (Shader.position a)) 0 1.
Proof.
  intros Hsum H0 H1 H2. unfold Shader.main.
  set (v := Glm.v4_of_v2 (Shader.position a) szero sone).
  destruct (accumulate_identity u v _ (Shader.joint_0_weight a)
              {| Shader.gl_Position := Glm.v4_zero; Shader.color := Glm.v4_zero |} H0)
    as (c0 & _ & E0).
  rewrite E0.
  match goal with |- context [Shader.accumulate u v _ _ ?o] =>
    destruct (accumulate_identity u v _ (Shader.joint_1_weight a) o H1) as (c1 & _ & E1)
  end.
  rewrite E1.
  match goal with |- context [Shader.accumulate u v _ _ ?o] =>
    destruct (accumulate_identity u v _ (Shader.joint_2_weight a) o H2) as (c2 & _ & E2)
  end.
  rewrite E2. eexists. split; [reflexivity|].
  cbn [Shader.gl_Position]. subst v.
  destruct (Shader.position a) as [px py].
  unfold Glm.v4_add, Glm.v4_lscale, Glm.mat4_mul_vec, Glm.mat4_identity,
    Glm.v4_of_v2, Glm.v4_zero.
  cbn [vx vy vz vw col0 col1 col2 col3 x2 y2 sadd smul szero sone Scalar_Qc].
  set (w0 := Shader.joint_0_weight a) in *.
  set (w1 := Shader.joint_1_weight a) in *.
  set (w2 := Shader.joint_2_weight a) in *.
  f_equal.
  - transitivity ((w0 + w1 + w2) * px); [ring|rewrite Hsum; ring].
  - transitivity ((w0 + w1 + w2) * py); [ring|rewrite Hsum; ring].
  - ring.
  - transitivity (w0 + w1 + w2); [ring|exact Hsum].
Qed.

End Skinning.

Lemma mat4_identity_square_Qc :
  Glm.mat4_mul (T := Qc) Glm.mat4_identity Glm.mat4_identity = Glm.mat4_identity.
Proof.
  unfold Glm.mat4_mul, Glm.mat4_mul_col, Glm.mat4_identity, Glm.v4_add, Glm.v4_scale.
  cbn [vx vy vz vw col0 col1 col2 col3 sadd smul szero sone Scalar_Qc].
  f_equal; f_equal; ring.
Qed.

Lemma uniforms_at_rest_identity i :
  (i < JOINT_COUNT)%nat -> composed_identity_at uniforms_at_rest i.
Proof.
  intros Hi. exists Glm.mat4_identity, Glm.mat4_identity, (Vec4 1%Qc 1%Qc 1%Qc 1%Qc).
  unfold JOINT_COUNT in Hi.
  do 7 (destruct i as [|i]; [repeat split; try reflexivity; apply mat4_identity_square_Qc|]).
  lia.
Qed.

Lemma skinning_identity_witness :
  (Shader.joint_0_weight vertex_3_exact + Shader.joint_1_weight vertex_3_exact
   + Shader.joint_2_weight vertex_3_exact = 1)%Qc
  /\ composed_identity_at uniforms_at_rest (Shader.joint_0_index vertex_3_exact)
  /\ composed_identity_at uniforms_at_rest (Shader.joint_1_index vertex_3_exact)
  /\ composed_identity_at uniforms_at_rest (Shader.joint_2_index vertex_3_exact)
  /\ exists o,
       Shader.main uniforms_at_rest vertex_3_exact = Some o
       /\ Shader.gl_Position o
          = Vec4 (x2 (Shader.position vertex_3_exact))
                 (y2 (Shader.position vertex_3_exact)) 0%Qc 1%Qc.
Proof.
  assert (Hsum : (Shader.joint_0_weight vertex_3_exact
                  + Shader.joint_1_weight vertex_3_exact
                  + Shader.joint_2_weight vertex_3_exact = 1)%Qc)
    by (apply Qc_is_canon; reflexivity).
  assert (H0 : composed_identity_at uniforms_at_rest (Shader.joint_0_index vertex_3_exact))
    by (apply uniforms_at_rest_identity; unfold JOINT_COUNT; cbn; lia).
  assert (H1 : composed_identity_at uniforms_at_rest (Shader.joint_1_index vertex_3_exact))
    by (apply uniforms_at_rest_identity; unfold JOINT_COUNT; cbn; lia).
  assert (H2 : composed_identity_at uniforms_at_rest (Shader.joint_2_index vertex_3_exact))
    by (apply uniforms_at_rest_identity; unfold JOINT_COUNT; cbn; lia).
  split; [exact Hsum|]. split; [exact H0|]. split; [exact H1|]. split; [exact H2|].
  exact (skinning_identity uniforms_at_rest vertex_3_exact Hsum H0 H1 H2).
Defined.

(* ------------------------------------------------------------------ *)
(** * The bind-pose inverse table *)

Section BindInverse.
Variable lm : Glm.libm.

Lemma bind_pose_inv_loop fuel g (M : nat -> mat4 float) js : forall data,
  Forall (fun j => getJointTransform lm fuel g (joint (pose (poses g) 0) j)
                   = Some (M j)) js ->
  fold_left (bind_pose_inv_step lm fuel g) js (Some data)
  = Some (fold_left
            (fun cur j => update_nth j ((fun j _ => Glm.inverse (M j)) j
                                          (nth j cur Glm.mat4_identity)) cur)
            js data).
Proof.
  induction js as [|j js IH]; intros data Hjs; cbn [fold_left]; [reflexivity|].
  inversion Hjs as [|? ? Hj Hjs']; subst.
  cbn [bind_pose_inv_step]. rewrite Hj. apply IH, Hjs'.
Qed.

Lemma bind_pose_inv_data_spec fuel g :
  (JOINT_COUNT <= fuel)%nat ->
  (forall j, (j < JOINT_COUNT)%nat ->
     exists l, chain JOINT_COUNT g (joint (pose (poses g) 0) j) = Some l) ->
  bind_pose_inv_data lm fuel g
  = Some (map (fun j => Glm.inverse (bind_transform lm g j)) (seq 0 JOINT_COUNT)).
Proof.
  intros Hfuel Hchain. unfold bind_pose_inv_data.
  rewrite (bind_pose_inv_loop fuel g (bind_transform lm g)).
  - reflexivity.
  - apply Forall_forall. intros j Hj. apply in_seq in Hj.
    destruct (Hchain j) as [l Hl]; [lia|].
    unfold bind_transform. rewrite Hl.
    destruct (chain_nonempty _ _ _ _ Hl) as [_ Hlen].
    apply (getJointTransform_chain lm _ _ _ _ Hl). lia.
Qed.

End BindInverse.

(** C6, as amended.  [initGL] never fails on account of a singular
    transform.  Whenever the three shader steps succeed and the chain of
    parents of every bind-pose joint reaches a root, it returns, whatever
    the scales are, and the [bind_pose_inv] uniform it leaves holds
    [glm::inverse(getJointTransform(poses[0].joints[j]))] for each of the 7
    joints; when it throws, it is [initShaderProgram] that threw. *)
Theorem initGL_bind_pose_inverses lm drv fuel garbage g :
  (JOINT_COUNT <= fuel)%nat ->
  (forall j, (j < JOINT_COUNT)%nat ->
     exists l, chain JOINT_COUNT g (joint (pose (poses g) 0) j) = Some l) ->
  (initShaderProgram drv = Returned tt ->
   exists data,
     initGL lm drv fuel garbage g
     = Returned {| mesh := initMeshes garbage; bind_pose_inv_uniform := data |}
     /\ List.length data = JOINT_COUNT
     /\ forall j, (j < JOINT_COUNT)%nat ->
          exists m,
            getJointTransform lm fuel g (joint (pose (poses g) 0) j) = Some m
            /\ nth j data Glm.mat4_identity = Glm.inverse m)
  /\ (forall what,
        initGL lm drv fuel garbage g = Thrown what ->
        initShaderProgram drv = Thrown what).
Proof.
  intros Hfuel Hchain.
  pose proof (bind_pose_inv_data_spec lm fuel g Hfuel Hchain) as Hdata.
  split.
  - intros Hok.
    exists (map (fun j => Glm.inverse (bind_transform lm g j)) (seq 0 JOINT_COUNT)).
    split; [|split].
    + unfold initGL. rewrite Hok, Hdata. reflexivity.
    + rewrite length_map, length_seq. reflexivity.
    + intros j Hj. exists (bind_transform lm g j). split.
      * destruct (Hchain j Hj) as [l Hl]. unfold bind_transform. rewrite Hl.
        destruct (chain_nonempty _ _ _ _ Hl) as [_ Hlen].
        apply (getJointTransform_chain lm _ _ _ _ Hl). lia.
      * rewrite (nth_indep _ _ (Glm.inverse (bind_transform lm g 0)))
          by (rewrite length_map, length_seq; exact Hj).
        rewrite (map_nth (fun j => Glm.inverse (bind_transform lm g j))).
        rewrite seq_nth by exact Hj. reflexivity.
  - intros what. unfold initGL. rewrite Hdata.
    destruct (initShaderProgram drv) as [[]|w|]; intros E; try discriminate.
    injection E as E. rewrite E. reflexivity.
Qed.

Lemma initPoses_chains j :
  (j < JOINT_COUNT)%nat ->
  exists l, chain JOINT_COUNT (initPoses globals_init)
              (joint (pose (poses (initPoses globals_init)) 0) j) = Some l.
Proof.
  unfold JOINT_COUNT. intros Hj.
  do 7 (destruct j as [|j]; [eexists; vm_compute; reflexivity|]). lia.
Qed.

Lemma zero_scale_chains j :
  (j < JOINT_COUNT)%nat ->
  exists l, chain JOINT_COUNT globals_zero_scale
              (joint (pose (poses globals_zero_scale) 0) j) = Some l.
Proof.
  unfold JOINT_COUNT. intros Hj.
  do 7 (destruct j as [|j]; [eexists; vm_compute; reflexivity|]). lia.
Qed.

Lemma initGL_bind_pose_inverses_witness :
  let g := initPoses globals_init in
  (JOINT_COUNT <= 7)%nat
  /\ (forall j, (j < JOINT_COUNT)%nat ->
        exists l, chain JOINT_COUNT g (joint (pose (poses g) 0) j) = Some l)
  /\ initShaderProgram gl_driver_ok = Returned tt
  /\ (initShaderProgram gl_driver_ok = Returned tt ->
      exists data,
        initGL libm_coarse gl_driver_ok 7 Vertex_zero g
        = Returned {| mesh := initMeshes Vertex_zero; bind_pose_inv_uniform := data |}
        /\ List.length data = JOINT_COUNT
        /\ forall j, (j < JOINT_COUNT)%nat ->
             exists m,
               getJointTransform libm_coarse 7 g (joint (pose (poses g) 0) j) = Some m
               /\ nth j data Glm.mat4_identity = Glm.inverse m)
  /\ (forall what,
        initGL libm_coarse gl_driver_ok 7 Vertex_zero g = Thrown what ->
        initShaderProgram gl_driver_ok = Thrown what).
Proof.
  intros g.
  assert (H1 : (JOINT_COUNT <= 7)%nat) by (unfold JOINT_COUNT; lia).
  split; [exact H1|]. split; [exact initPoses_chains|]. split; [reflexivity|].
  exact (initGL_bind_pose_inverses libm_coarse gl_driver_ok 7 Vertex_zero g
           H1 initPoses_chains).
Defined.

(** C6, counterexample.  With [scale = 0.0f] in the root joint of the bind
    pose, the model transform of that joint sends [(1, 0, 0, 0)] to zero: it
    is singular.  [initGL] returns all the same, for every C library and
    every content of the uninitialised vertex. *)
Lemma initGL_singular_bind_pose :
  let g := globals_zero_scale in
  (forall lm, exists m,
      getJointTransform lm 7 g (joint (pose (poses g) 0) 0) = Some m
      /\ in_kernel m (Vec4 fone fzero fzero fzero))
  /\ (forall lm garbage, exists s,
        initGL lm gl_driver_ok 7 garbage g = Returned s).
Proof.
  intros g. split.
  - intros lm. eexists. split; [vm_compute; reflexivity|].
    split; [discriminate|vm_compute; reflexivity].
  - intros lm garbage. eexists. unfold initGL.
    rewrite (bind_pose_inv_data_spec lm 7 g); [reflexivity| |exact zero_scale_chains].
    unfold JOINT_COUNT. lia.
Qed.

(* ------------------------------------------------------------------ *)
(** * The evaluator and the pose blender, continued *)

Section Recursion.
Variable lm : Glm.libm.

Lemma getJointTransform_returns_chain fuel : forall g jp m,
  getJointTransform lm fuel g jp = Some m -> exists l, chain fuel g jp = Some l.
Proof.
  induction fuel as [|fuel IH]; intros g jp m H; [discriminate|].
  cbn [getJointTransform] in H. rewrite chain_S.
  destruct (parent jp) eqn:Ep.
  - eexists. reflexivity.
  - destruct (load g (Addr b off)) as [pj|]; [|discriminate].
    destruct (getJointTransform lm fuel g pj) as [mp|] eqn:Ep'; [|discriminate].
    destruct (IH _ _ _ Ep') as [l Hl]. rewrite Hl. eexists. reflexivity.
  - cbn [load] in H. discriminate.
Qed.

Lemma chain_self_parent n : forall g jp,
  parent jp <> Null -> load g (parent jp) = Some jp -> chain n g jp = None.
Proof.
  induction n as [|n IH]; intros g jp Hp Hl; [reflexivity|].
  rewrite chain_S. destruct (parent jp) eqn:Ep; [congruence| |].
  - rewrite Hl. rewrite IH; [reflexivity|congruence|rewrite Ep; exact Hl].
  - rewrite Hl. rewrite IH; [reflexivity|congruence|rewrite Ep; exact Hl].
Qed.

End Recursion.

(** [getJointTransform] has a result exactly when the chain of parents
    reaches a root within the fuel: there is no cycle detection and no
    pointer check.  For a joint that is its own parent the recursion never
    ends, and for a parent pointer that is not the address of a joint the
    read is undefined: no result, whatever the fuel. *)
Theorem getJointTransform_returns_iff lm fuel g joint_pose :
  ((exists m, getJointTransform lm fuel g joint_pose = Some m)
   <-> (exists l, chain fuel g joint_pose = Some l))
  /\ (parent joint_pose <> Null ->
      load g (parent joint_pose) = Some joint_pose ->
      getJointTransform lm fuel g joint_pose = None)
  /\ (parent joint_pose <> Null ->
      load g (parent joint_pose) = None ->
      getJointTransform lm fuel g joint_pose = None).
Proof.
  split; [|split].
  - split.
    + intros [m Hm]. exact (getJointTransform_returns_chain lm _ _ _ _ Hm).
    + intros [l Hl]. exists (chain_transform lm l).
      destruct (chain_nonempty _ _ _ _ Hl) as [_ Hlen].
      apply (getJointTransform_chain lm _ _ _ _ Hl). exact Hlen.
  - intros Hp Hl.
    destruct (getJointTransform lm fuel g joint_pose) as [m|] eqn:E; [|reflexivity].
    destruct (getJointTransform_returns_chain lm _ _ _ _ E) as [l Hc].
    rewrite (chain_self_parent fuel g joint_pose Hp Hl) in Hc. discriminate.
  - intros Hp Hl. destruct fuel as [|fuel]; [reflexivity|].
    cbn [getJointTransform]. destruct (parent joint_pose); [congruence| |];
      rewrite Hl; reflexivity.
Qed.

(** Joint 0 of [current_pose] made its own parent: the evaluator has no
    result, even with fuel for a thousand joints. *)
Lemma getJointTransform_returns_iff_witness :
  parent (joint (current_pose globals_self_parent) 0) <> Null
  /\ load globals_self_parent (parent (joint (current_pose globals_self_parent) 0))
     = Some (joint (current_pose globals_self_parent) 0)
  /\ getJointTransform libm_coarse 1000 globals_self_parent
       (joint (current_pose globals_self_parent) 0) = None.
Proof.
  assert (H1 : parent (joint (current_pose globals_self_parent) 0) <> Null)
    by (vm_compute; discriminate).
  assert (H2 : load globals_self_parent
                 (parent (joint (current_pose globals_self_parent) 0))
               = Some (joint (current_pose globals_self_parent) 0))
    by (vm_compute; reflexivity).
  split; [exact H1|]. split; [exact H2|].
  exact (proj1 (proj2 (getJointTransform_returns_iff libm_coarse 1000
                         globals_self_parent
                         (joint (current_pose globals_self_parent) 0))) H1 H2).
Defined.

Section Rebase.

Lemma rebase_addr_poses left k :
  rebase left (addr_poses left k) = addr_current k.
Proof. unfold rebase, addr_poses, addr_current. f_equal. lia. Qed.

Lemma joint_at_mul k n :
  (k < n)%nat -> joint_at (Z.of_nat k * sizeof_JointPose) n = Some k.
Proof.
  intros Hk. unfold joint_at, sizeof_JointPose.
  rewrite Z.mod_mul, Z.div_mul by lia.
  replace (0 <=? Z.of_nat k * 40) with true by (symmetry; apply Z.leb_le; lia).
  replace (Z.of_nat k <? Z.of_nat n) with true by (symmetry; apply Z.ltb_lt; lia).
  cbn. rewrite Nat2Z.id. reflexivity.
Qed.

Lemma load_addr_current g k :
  Pose_wf (current_pose g) = true -> (k < JOINT_COUNT)%nat ->
  load g (addr_current k) = Some (joint (current_pose g) k).
Proof.
  unfold Pose_wf. intros Hwf Hk. apply Nat.eqb_eq in Hwf.
  unfold load, addr_current. rewrite joint_at_mul by exact Hk.
  unfold joint. apply nth_error_nth'. lia.
Qed.

Lemma load_addr_poses g i k :
  (i < List.length (poses g))%nat -> Pose_wf (pose (poses g) i) = true ->
  (k < JOINT_COUNT)%nat ->
  load g (addr_poses i k) = Some (joint (pose (poses g) i) k).
Proof.
  unfold Pose_wf. intros Hi Hwf Hk. apply Nat.eqb_eq in Hwf.
  unfold load, addr_poses, sizeof_Pose.
  replace (Z.of_nat i * (Z.of_nat JOINT_COUNT * sizeof_JointPose)
           + Z.of_nat k * sizeof_JointPose)
    with (Z.of_nat (i * JOINT_COUNT + k) * sizeof_JointPose) by lia.
  rewrite joint_at_mul by (unfold JOINT_COUNT in *; nia).
  rewrite Nat.div_add_l by (unfold JOINT_COUNT; lia).
  rewrite Nat.div_small by exact Hk. rewrite Nat.add_0_r.
  rewrite Nat.add_comm, Nat.Div0.mod_add, Nat.mod_small by exact Hk.
  unfold joint. apply nth_error_nth'. lia.
Qed.

Lemma self_contained_joint_inv i jp :
  self_contained_joint i jp = true ->
  parent jp = Null \/ exists k, (k < JOINT_COUNT)%nat /\ parent jp = addr_poses i k.
Proof.
  unfold self_contained_joint. destruct (parent jp) as [|[|] off|]; try discriminate.
  - intros _. left. reflexivity.
  - intros H. right. apply existsb_exists in H. destruct H as (k & Hk & E).
    apply in_seq in Hk. apply Z.eqb_eq in E. exists k. split; [lia|].
    unfold addr_poses. rewrite E. reflexivity.
Qed.

Lemma blend_current_wf f g st :
  Pose_wf (pose (poses st) (left_pose st)) = true ->
  Pose_wf (current_pose (blend f g st)) = true.
Proof.
  intros Hwf. rewrite blend_spec by exact Hwf.
  unfold Pose_wf. cbn [current_pose joints]. rewrite length_map, length_seq. reflexivity.
Qed.

Lemma blend_parent f g st j :
  Pose_wf (pose (poses st) (left_pose st)) = true -> (j < JOINT_COUNT)%nat ->
  parent (joint (current_pose (blend f g st)) j)
  = match parent (joint (pose (poses st) (left_pose st)) j) with
    | Null => Null
    | p => rebase (left_pose st) p
    end.
Proof. intros Hwf Hj. rewrite blend_joint by assumption. reflexivity. Qed.

End Rebase.

(** After a pointer-move event, a joint of [current_pose] whose source joint
    in [poses[left_pose]] has joint [k] of [poses[left_pose]] as parent has
    joint [k] of [current_pose] as parent, and dereferencing that pointer
    yields the blended joint [k]; a root stays a root. *)
Theorem mouseMove_rebases_parents x y st j :
  globals_wf st = true ->
  (j < JOINT_COUNT)%nat ->
  let st' := mouseMove x y st in
  let source := joint (pose (poses st) (left_pose st)) j in
  (parent source = Null -> parent (joint (current_pose st') j) = Null)
  /\ (forall k, (k < JOINT_COUNT)%nat ->
        parent source = addr_poses (left_pose st) k ->
        parent (joint (current_pose st') j) = addr_current k
        /\ load st' (parent (joint (current_pose st') j))
           = Some (joint (current_pose st') k)).
Proof.
  intros Hwf Hj st' source. subst st' source. unfold mouseMove.
  set (f := blend_factor x st). set (g := fsub (of_int 1) f).
  pose proof (globals_wf_left st Hwf) as HwL.
  split.
  - intros Ep. rewrite blend_parent by assumption. rewrite Ep. reflexivity.
  - intros k Hk Ep.
    assert (E : parent (joint (current_pose (blend f g st)) j) = addr_current k).
    { rewrite blend_parent by assumption. rewrite Ep.
      exact (rebase_addr_poses (left_pose st) k). }
    split; [exact E|]. rewrite E.
    apply load_addr_current; [apply blend_current_wf; exact HwL|exact Hk].
Qed.

(** Joint 4 after a pointer-move event on the poses of [initPoses]: its
    parent is joint 1 of [current_pose]. *)
Lemma mouseMove_rebases_parents_witness :
  globals_wf (globals_started 800 800) = true
  /\ (4 < JOINT_COUNT)%nat
  /\ (1 < JOINT_COUNT)%nat
  /\ parent (joint (pose (poses (globals_started 800 800))
                         (left_pose (globals_started 800 800))) 4)
     = addr_poses (left_pose (globals_started 800 800)) 1
  /\ parent (joint (current_pose (mouseMove 200 300 (globals_started 800 800))) 4)
     = addr_current 1
  /\ load (mouseMove 200 300 (globals_started 800 800))
          (parent (joint (current_pose (mouseMove 200 300 (globals_started 800 800))) 4))
     = Some (joint (current_pose (mouseMove 200 300 (globals_started 800 800))) 1).
Proof.
  assert (H1 : globals_wf (globals_started 800 800) = true) by (vm_compute; reflexivity).
  assert (H2 : (4 < JOINT_COUNT)%nat) by (unfold JOINT_COUNT; lia).
  assert (H3 : (1 < JOINT_COUNT)%nat) by (unfold JOINT_COUNT; lia).
  assert (H4 : parent (joint (pose (poses (globals_started 800 800))
                                   (left_pose (globals_started 800 800))) 4)
               = addr_poses (left_pose (globals_started 800 800)) 1)
    by (vm_compute; reflexivity).
  split; [exact H1|]. split; [exact H2|]. split; [exact H3|]. split; [exact H4|].
  exact (proj2 (mouseMove_rebases_parents 200 300 (globals_started 800 800) 4 H1 H2)
               1%nat H3 H4).
Defined.

(** [mouseMove] relies on the parents of [poses[left_pose]] being joints of
    [poses[left_pose]]: a parent that is a joint of another pose is carried
    to an address outside [current_pose]; reading it is undefined, and the
    evaluator has no result for the joint, whatever the fuel. *)
Theorem mouseMove_foreign_parent lm x y st j i k :
  globals_wf st = true ->
  (j < JOINT_COUNT)%nat -> (k < JOINT_COUNT)%nat ->
  (i < N_POSES)%nat -> i <> left_pose st ->
  parent (joint (pose (poses st) (left_pose st)) j) = addr_poses i k ->
  let st' := mouseMove x y st in
  load st' (parent (joint (current_pose st') j)) = None
  /\ forall fuel, getJointTransform lm fuel st' (joint (current_pose st') j) = None.
Proof.
  intros Hwf Hj Hk Hi Hne Ep st'. subst st'. unfold mouseMove.
  set (f := blend_factor x st). set (g := fsub (of_int 1) f).
  pose proof (globals_wf_left st Hwf) as HwL.
  assert (E : parent (joint (current_pose (blend f g st)) j)
              = Addr Bcurrent (0 + (Z.of_nat i * sizeof_Pose + Z.of_nat k * sizeof_JointPose
                                    - Z.of_nat (left_pose st) * sizeof_Pose))).
  { rewrite blend_parent by assumption. rewrite Ep. reflexivity. }
  assert (L : load (blend f g st) (parent (joint (current_pose (blend f g st)) j)) = None).
  { rewrite E. unfold load, joint_at, sizeof_Pose, sizeof_JointPose, JOINT_COUNT in *.
    change (Z.of_nat 7) with 7 in *.
    match goal with |- context [if ?c then _ else _] => destruct c eqn:C end;
      [|reflexivity].
    rewrite !andb_true_iff in C. destruct C as [[C1 C2] C3].
    apply Z.leb_le in C1. apply Z.ltb_lt in C3. exfalso.
    assert (D : Z.of_nat i < Z.of_nat (left_pose st)
                \/ Z.of_nat i > Z.of_nat (left_pose st)) by lia.
    destruct D as [D|D]; [lia|].
    match type of C3 with ?a / 40 < 7 => assert (B : 280 <= a) by lia end.
    apply Z.div_le_mono with (c := 40) in B; [|lia].
    change (280 / 40) with 7 in B. lia. }
  split; [exact L|].
  intros [|fuel]; [reflexivity|]. cbn [getJointTransform].
  rewrite E in *. rewrite L. reflexivity.
Qed.

(** Joint 4 of [poses[2]] left with its parent in [poses[0]]. *)
Lemma mouseMove_foreign_parent_witness :
  globals_wf globals_stale_parent = true
  /\ (4 < JOINT_COUNT)%nat /\ (1 < JOINT_COUNT)%nat
  /\ (0 < N_POSES)%nat /\ 0%nat <> left_pose globals_stale_parent
  /\ parent (joint (pose (poses globals_stale_parent)
                         (left_pose globals_stale_parent)) 4) = addr_poses 0 1
  /\ load (mouseMove 200 300 globals_stale_parent)
          (parent (joint (current_pose (mouseMove 200 300 globals_stale_parent)) 4))
     = None
  /\ forall fuel,
       getJointTransform libm_coarse fuel (mouseMove 200 300 globals_stale_parent)
         (joint (current_pose (mouseMove 200 300 globals_stale_parent)) 4) = None.
Proof.
  assert (H1 : globals_wf globals_stale_parent = true) by (vm_compute; reflexivity).
  assert (H2 : (4 < JOINT_COUNT)%nat) by (unfold JOINT_COUNT; lia).
  assert (H3 : (1 < JOINT_COUNT)%nat) by (unfold JOINT_COUNT; lia).
  assert (H4 : (0 < N_POSES)%nat) by (unfold N_POSES; lia).
  assert (H5 : 0%nat <> left_pose globals_stale_parent) by (vm_compute; discriminate).
  assert (H6 : parent (joint (pose (poses globals_stale_parent)
                                   (left_pose globals_stale_parent)) 4)
               = addr_poses 0 1) by (vm_compute; reflexivity).
  split; [exact H1|]. split; [exact H2|]. split; [exact H3|]. split; [exact H4|].
  split; [exact H5|]. split; [exact H6|].
  exact (mouseMove_foreign_parent libm_coarse 200 300 globals_stale_parent 4 0 1
           H1 H2 H3 H4 H5 H6).
Defined.


(** A pointer-move event recomputes [current_pose] from the pose table
    alone: what an earlier event left in [current_pose] has no influence,
    and neither has [y]. *)
Theorem mouseMove_last_event_wins x y x' y' st :
  mouseMove x y (mouseMove x' y' st) = mouseMove x y' st.
Proof.
  unfold mouseMove at 1 3.
  assert (F : viewport (mouseMove x' y' st) = viewport st
              /\ poses (mouseMove x' y' st) = poses st
              /\ left_pose (mouseMove x' y' st) = left_pose st
              /\ right_pose (mouseMove x' y' st) = right_pose st).
  { unfold mouseMove, blend.
    match goal with
    | |- context [fold_left ?step ?js ?st0] =>
        exact (mouseMove_loop_frame (blend_factor x' st)
                 (fsub (of_int 1) (blend_factor x' st)) js st0)
    end. }
  destruct F as (Fv & Fp & Fl & Fr).
  unfold blend_factor, blend. rewrite Fv, Fp, Fl, Fr. reflexivity.
Qed.

Section Display.
Variable lm : Glm.libm.

Lemma display_loop fuel g (M : nat -> mat4 float) js : forall data colors,
  Forall (fun j => getJointTransform lm fuel g (joint (current_pose g) j)
                   = Some (M j)) js ->
  fold_left (display_step lm fuel g) js (Some (data, colors))
  = Some (fold_left (fun cur j => update_nth j (M j) cur) js data,
          fold_left (fun cur j => update_nth j (color (joint (current_pose g) j)) cur)
                    js colors).
Proof.
  induction js as [|j js IH]; intros data colors Hjs; cbn [fold_left]; [reflexivity|].
  inversion Hjs as [|? ? Hj Hjs']; subst.
  cbn [display_step]. rewrite Hj. apply IH, Hjs'.
Qed.

Lemma chain_S_parent n g jp p :
  parent jp = p -> p <> Null ->
  chain (S n) g jp
  = match load g p with
    | Some parent_pose => option_map (cons jp) (chain n g parent_pose)
    | None => None
    end.
Proof.
  intros Ep Hp. rewrite chain_S, Ep. destruct p; [congruence|reflexivity|reflexivity].
Qed.

(** The chain of a joint of the blended pose mirrors the chain of its
    source joint. *)
Lemma chain_after_blend f g st n : forall j l,
  globals_wf st = true ->
  Pose_self_contained (poses st) (left_pose st) = true ->
  (j < JOINT_COUNT)%nat ->
  chain n st (joint (pose (poses st) (left_pose st)) j) = Some l ->
  exists l', chain n (blend f g st) (joint (current_pose (blend f g st)) j) = Some l'.
Proof.
  induction n as [|n IH]; intros j l Hwf Hsc Hj Hl; [discriminate|].
  pose proof (globals_wf_left st Hwf) as HwL.
  assert (Hleft : (left_pose st < List.length (poses st))%nat).
  { unfold globals_wf in Hwf. rewrite !andb_true_iff in Hwf.
    destruct Hwf as [[[[Hlen _] _] Hl'] _].
    apply Nat.eqb_eq in Hlen. apply Nat.ltb_lt in Hl'. lia. }
  assert (Hin : self_contained_joint (left_pose st)
                  (joint (pose (poses st) (left_pose st)) j) = true).
  { unfold Pose_self_contained in Hsc. rewrite forallb_forall in Hsc.
    apply Hsc. unfold joint. apply nth_In. unfold Pose_wf in HwL.
    apply Nat.eqb_eq in HwL. lia. }
  destruct (self_contained_joint_inv _ _ Hin) as [Ep|(k & Hk & Ep)].
  - rewrite chain_S, blend_parent, Ep by assumption. eexists. reflexivity.
  - assert (EC : parent (joint (current_pose (blend f g st)) j) = addr_current k).
    { rewrite blend_parent, Ep by assumption.
      exact (rebase_addr_poses (left_pose st) k). }
    rewrite (chain_S_parent n _ _ _ EC) by discriminate.
    rewrite (chain_S_parent n _ _ _ Ep) in Hl by discriminate.
    rewrite load_addr_current by (try apply blend_current_wf; assumption).
    rewrite load_addr_poses in Hl by assumption.
    destruct (chain n st (joint (pose (poses st) (left_pose st)) k)) as [l0|] eqn:E0;
      [|discriminate].
    destruct (IH k l0 Hwf Hsc Hk E0) as [l' Hl']. rewrite Hl'.
    eexists. reflexivity.
Qed.

End Display.

(** After a pointer-move event on a pose table whose left-hand pose is self
    contained and has no cycle, the loop of [display] obtains a model
    transform for each of the 7 joints of [current_pose], and the colours it
    uploads are the blended colours. *)
Theorem display_after_mouseMove lm x y st fuel :
  globals_wf st = true ->
  Pose_self_contained (poses st) (left_pose st) = true ->
  (forall j, (j < JOINT_COUNT)%nat ->
     exists l, chain JOINT_COUNT st (joint (pose (poses st) (left_pose st)) j) = Some l) ->
  (JOINT_COUNT <= fuel)%nat ->
  let st' := mouseMove x y st in
  exists data,
    display_uniforms lm fuel st'
    = Some (data, map color (joints (current_pose st')))
    /\ List.length data = JOINT_COUNT
    /\ forall j, (j < JOINT_COUNT)%nat ->
         getJointTransform lm fuel st' (joint (current_pose st') j)
         = Some (nth j data Glm.mat4_identity).
Proof.
  intros Hwf Hsc Hchain Hfuel st'. subst st'. unfold mouseMove.
  set (f := blend_factor x st). set (g := fsub (of_int 1) f).
  pose proof (globals_wf_left st Hwf) as HwL.
  set (st' := blend f g st).
  set (M := fun j => match chain JOINT_COUNT st' (joint (current_pose st') j) with
                     | Some l => chain_transform lm l
                     | None => Glm.mat4_identity
                     end).
  assert (HM : forall j, (j < JOINT_COUNT)%nat ->
             getJointTransform lm fuel st' (joint (current_pose st') j) = Some (M j)).
  { intros j Hj. destruct (Hchain j Hj) as [l Hl].
    destruct (chain_after_blend f g st _ j l Hwf Hsc Hj Hl) as [l' Hl'].
    fold st' in Hl'. unfold M. rewrite Hl'.
    destruct (chain_nonempty _ _ _ _ Hl') as [_ Hlen].
    apply (getJointTransform_chain lm _ _ _ _ Hl'). lia. }
  exists (map M (seq 0 JOINT_COUNT)). split; [|split].
  - unfold display_uniforms. rewrite (display_loop lm fuel st' M).
    + f_equal. apply f_equal2; [reflexivity|].
      unfold st'. rewrite blend_spec by exact HwL. reflexivity.
    + apply Forall_forall. intros j Hj. apply in_seq in Hj. apply HM. lia.
  - rewrite length_map, length_seq. reflexivity.
  - intros j Hj. rewrite (HM j Hj). f_equal.
    rewrite (nth_indep _ _ (M 0%nat)) by (rewrite length_map, length_seq; exact Hj).
    rewrite (map_nth M). rewrite seq_nth by exact Hj. reflexivity.
Qed.

(** The left-hand pose of [initPoses] has no cycle. *)
Lemma started_chains w h j :
  (j < JOINT_COUNT)%nat ->
  exists l, chain JOINT_COUNT (globals_started w h)
              (joint (pose (poses (globals_started w h))
                           (left_pose (globals_started w h))) j) = Some l.
Proof.
  unfold JOINT_COUNT. intros Hj. generalize w, h. clear w h. intros w h.
  do 7 (destruct j as [|j]; [eexists; vm_compute; reflexivity|]). lia.
Qed.

(** The poses of [initPoses], an 800 by 800 window, the pointer at
    (200, 300). *)
Lemma display_after_mouseMove_witness :
  globals_wf (globals_started 800 800) = true
  /\ Pose_self_contained (poses (globals_started 800 800))
                         (left_pose (globals_started 800 800)) = true
  /\ (JOINT_COUNT <= 7)%nat
  /\ exists data,
       display_uniforms libm_coarse 7 (mouseMove 200 300 (globals_started 800 800))
       = Some (data, map color (joints (current_pose
                                          (mouseMove 200 300 (globals_started 800 800)))))
       /\ List.length data = JOINT_COUNT
       /\ forall j, (j < JOINT_COUNT)%nat ->
            getJointTransform libm_coarse 7 (mouseMove 200 300 (globals_started 800 800))
              (joint (current_pose (mouseMove 200 300 (globals_started 800 800))) j)
            = Some (nth j data Glm.mat4_identity).
Proof.
  assert (H1 : globals_wf (globals_started 800 800) = true) by (vm_compute; reflexivity).
  assert (H2 : Pose_self_contained (poses (globals_started 800 800))
                 (left_pose (globals_started 800 800)) = true)
    by (vm_compute; reflexivity).
  assert (H3 : (JOINT_COUNT <= 7)%nat) by (unfold JOINT_COUNT; lia).
  split; [exact H1|]. split; [exact H2|]. split; [exact H3|].
  exact (display_after_mouseMove libm_coarse 200 300 (globals_started 800 800) 7
           H1 H2 (started_chains 800 800) H3).
Defined.

Section MainLoop.
Variable lm : Glm.libm.

Lemma handle_frame st e :
  poses (handle st e) = poses st
  /\ left_pose (handle st e) = left_pose st
  /\ right_pose (handle st e) = right_pose st.
Proof.
  destruct e as [w h|x y]; cbn [handle].
  - repeat split; reflexivity.
  - unfold mouseMove, blend.
    match goal with
    | |- context [fold_left ?step ?js ?st0] =>
        destruct (mouseMove_loop_frame (blend_factor x st)
                    (fsub (of_int 1) (blend_factor x st)) js st0)
          as (_ & Hp & Hl & Hr)
    end.
    rewrite Hp, Hl, Hr. repeat split; reflexivity.
Qed.

Lemma main_loop_frame evs : forall st,
  poses (fold_left handle evs st) = poses st
  /\ left_pose (fold_left handle evs st) = left_pose st
  /\ right_pose (fold_left handle evs st) = right_pose st.
Proof.
  induction evs as [|e evs IH]; intros st; cbn [fold_left].
  - repeat split; reflexivity.
  - destruct (IH (handle st e)) as (Hp & Hl & Hr).
    destruct (handle_frame st e) as (Hp' & Hl' & Hr').
    rewrite Hp, Hl, Hr, Hp', Hl', Hr'. repeat split; reflexivity.
Qed.

Lemma getJointTransform_reshape w h fuel : forall g jp,
  getJointTransform lm fuel (reshape w h g) jp = getJointTransform lm fuel g jp.
Proof.
  induction fuel as [|fuel IH]; intros g jp; [reflexivity|].
  cbn [getJointTransform].
  change (load (reshape w h g)) with (load g).
  destruct (parent jp); [reflexivity| |reflexivity].
  destruct (load g (Addr b off)); [|reflexivity].
  rewrite IH. reflexivity.
Qed.

Lemma display_uniforms_reshape w h fuel g :
  display_uniforms lm fuel (reshape w h g) = display_uniforms lm fuel g.
Proof.
  unfold display_uniforms.
  generalize (Some (repeat (@Glm.mat4_identity float _) JOINT_COUNT,
                    repeat (Vec4 fzero fzero fzero fzero) JOINT_COUNT)).
  generalize (seq 0 JOINT_COUNT).
  induction l as [|j js IH]; intros acc; cbn [fold_left]; [reflexivity|].
  rewrite IH. f_equal.
  destruct acc as [[data colors]|]; [|reflexivity].
  cbn [display_step]. change (current_pose (reshape w h g)) with (current_pose g).
  rewrite getJointTransform_reshape. reflexivity.
Qed.

Lemma blend_ext f g st st' :
  viewport st = viewport st' -> poses st = poses st' ->
  left_pose st = left_pose st' -> right_pose st = right_pose st' ->
  blend f g st = blend f g st'.
Proof.
  intros Hv Hp Hl Hr. unfold blend. rewrite Hv, Hp, Hl, Hr. reflexivity.
Qed.

Lemma mouseMove_ext x y st st' :
  viewport st = viewport st' -> poses st = poses st' ->
  left_pose st = left_pose st' -> right_pose st = right_pose st' ->
  mouseMove x y st = mouseMove x y st'.
Proof.
  intros Hv Hp Hl Hr. unfold mouseMove, blend_factor. rewrite Hv.
  apply blend_ext; assumption.
Qed.

Lemma started_fields w h :
  viewport (globals_started w h) = (w, h)
  /\ poses (globals_started w h) = poses (initPoses globals_init)
  /\ left_pose (globals_started w h) = left_pose (initPoses globals_init)
  /\ right_pose (globals_started w h) = right_pose (initPoses globals_init).
Proof.
  unfold globals_started.
  generalize (initPoses globals_init). intros g.
  split; [|split; [|split]]; reflexivity.
Qed.

Lemma mouseMove_from_start x y st :
  poses st = poses (initPoses globals_init) ->
  left_pose st = left_pose (initPoses globals_init) ->
  right_pose st = right_pose (initPoses globals_init) ->
  mouseMove x y st
  = mouseMove x y (globals_started (fst (viewport st)) (snd (viewport st))).
Proof.
  intros Hp Hl Hr.
  destruct (started_fields (fst (viewport st)) (snd (viewport st)))
    as (Fv & Fp & Fl & Fr).
  apply mouseMove_ext.
  - rewrite Fv. destruct (viewport st); reflexivity.
  - rewrite Fp. exact Hp.
  - rewrite Fl. exact Hl.
  - rewrite Fr. exact Hr.
Qed.

Lemma started_wf w h : globals_wf (globals_started w h) = true.
Proof. vm_compute. reflexivity. Qed.

Lemma started_self_contained w h :
  Pose_self_contained (poses (globals_started w h))
                      (left_pose (globals_started w h)) = true.
Proof. vm_compute. reflexivity. Qed.

Lemma fold_update_nth_length {A : Type} (h : nat -> A) js : forall l,
  List.length (fold_left (fun cur j => update_nth j (h j) cur) js l) = List.length l.
Proof.
  induction js as [|j js IH]; intros l; cbn [fold_left]; [reflexivity|].
  rewrite IH. apply update_nth_length.
Qed.

Lemma initPoses_current :
  current_pose (initPoses globals_init) = pose (poses (initPoses globals_init)) 0.
Proof. vm_compute. reflexivity. Qed.

Lemma display_of_chains fuel g :
  (forall j, (j < JOINT_COUNT)%nat ->
     exists l, chain JOINT_COUNT g (joint (current_pose g) j) = Some l) ->
  (JOINT_COUNT <= fuel)%nat ->
  exists data colors,
    display_uniforms lm fuel g = Some (data, colors)
    /\ List.length data = JOINT_COUNT /\ List.length colors = JOINT_COUNT.
Proof.
  intros Hc Hfuel. unfold display_uniforms.
  set (M := fun j => match chain JOINT_COUNT g (joint (current_pose g) j) with
                     | Some l => chain_transform lm l
                     | None => Glm.mat4_identity
                     end).
  rewrite (display_loop lm fuel g M).
  - eexists. eexists. split; [reflexivity|].
    rewrite (fold_update_nth_length M).
    rewrite (fold_update_nth_length (fun j => color (joint (current_pose g) j))).
    rewrite !repeat_length. split; reflexivity.
  - apply Forall_forall. intros j Hj. apply in_seq in Hj.
    destruct (Hc j ltac:(lia)) as [l Hl].
    unfold M. rewrite Hl.
    apply (getJointTransform_chain lm _ _ _ _ Hl).
    destruct (chain_nonempty _ _ _ _ Hl) as [_ Hlen]. lia.
Qed.

Lemma display_at_start fuel :
  (JOINT_COUNT <= fuel)%nat ->
  exists data colors,
    display_uniforms lm fuel (initPoses globals_init) = Some (data, colors)
    /\ List.length data = JOINT_COUNT /\ List.length colors = JOINT_COUNT.
Proof.
  intros Hfuel. apply display_of_chains; [|exact Hfuel].
  pose proof initPoses_chains as Hc. rewrite <- initPoses_current in Hc.
  exact Hc.
Qed.

Lemma display_after_blend f g st fuel :
  globals_wf st = true ->
  Pose_self_contained (poses st) (left_pose st) = true ->
  (forall j, (j < JOINT_COUNT)%nat ->
     exists l, chain JOINT_COUNT st (joint (pose (poses st) (left_pose st)) j) = Some l) ->
  (JOINT_COUNT <= fuel)%nat ->
  exists data colors,
    display_uniforms lm fuel (blend f g st) = Some (data, colors)
    /\ List.length data = JOINT_COUNT /\ List.length colors = JOINT_COUNT.
Proof.
  intros Hwf Hsc Hchain Hfuel. apply display_of_chains; [|exact Hfuel].
  intros j Hj. destruct (Hchain j Hj) as [l Hl].
  exact (chain_after_blend f g st _ j l Hwf Hsc Hj Hl).
Qed.

End MainLoop.

(** [display] never hangs: in every state the main loop can reach from
    start-up by resize and pointer-move events, the loop of [display]
    obtains a model transform and a colour for each of the 7 joints of
    [current_pose]. *)
Theorem display_in_every_reachable_state lm evs fuel :
  (JOINT_COUNT <= fuel)%nat ->
  exists data colors,
    display_uniforms lm fuel (main_loop evs) = Some (data, colors)
    /\ List.length data = JOINT_COUNT /\ List.length colors = JOINT_COUNT.
Proof.
  intros Hfuel. unfold main_loop.
  induction evs as [|e evs IH] using rev_ind.
  - exact (display_at_start lm fuel Hfuel).
  - rewrite fold_left_app. cbn [fold_left].
    set (st := fold_left handle evs (initPoses globals_init)) in *.
    destruct e as [w h|x y]; cbn [handle].
    + rewrite display_uniforms_reshape. exact IH.
    + destruct (main_loop_frame evs (initPoses globals_init)) as (Hp & Hl & Hr).
      fold st in Hp, Hl, Hr.
      rewrite (mouseMove_from_start x y st Hp Hl Hr).
      set (w := fst (viewport st)). set (h := snd (viewport st)).
      unfold mouseMove.
      exact (display_after_blend lm _ _ (globals_started w h) fuel
               (started_wf w h) (started_self_contained w h)
               (started_chains w h) Hfuel).
Qed.

(** A resize, a pointer move, another resize, another pointer move. *)
Lemma display_in_every_reachable_state_witness :
  (JOINT_COUNT <= 7)%nat
  /\ exists data colors,
       display_uniforms libm_coarse 7
         (main_loop [Reshape 800 800; MouseMove 200 300; Reshape 640 480;
                     MouseMove 639 0])
       = Some (data, colors)
       /\ List.length data = JOINT_COUNT /\ List.length colors = JOINT_COUNT.
Proof.
  assert (H : (JOINT_COUNT <= 7)%nat) by (unfold JOINT_COUNT; lia).
  split; [exact H|].
  exact (display_in_every_reachable_state libm_coarse
           [Reshape 800 800; MouseMove 200 300; Reshape 640 480; MouseMove 639 0]
           7 H).
Defined.

Section TranslationColumn.

Lemma translate_col3 tx ty :
  regular tx = true -> regular ty = true ->
  col3 (Glm.translate Glm.mat4_identity (Vec3 tx ty (of_int 0)))
  = Vec4 tx ty fzero fone.
Proof.
  intros Hx Hy.
  destruct (regular_inv tx Hx) as [Vx Cx], (regular_inv ty Hy) as [Vy Cy].
  unfold Glm.translate, Glm.mat4_identity, Glm.v4_add, Glm.v4_scale.
  cbn [col0 col1 col2 col3 vx vy vz vw x3 y3 z3 sadd smul szero sone Scalar_float].
  rewrite (fmul_one_l tx), (fmul_one_l ty) by assumption.
  destruct Cx as [->|(sx & mx & ex & ->)], Cy as [->|(sy & my & ey & ->)];
    try reflexivity; try (destruct sx; reflexivity); try (destruct sy; reflexivity).
  destruct sx, sy; reflexivity.
Qed.

End TranslationColumn.

(** The last column of the local transform is the translation of the joint
    (finite and not [-0.0f]): [getJointLocalTransform] carries the origin of
    the joint to [(translation, 0, 1)], whatever the rotation and the scale
    are, and so does the model transform of a joint without parent. *)
Theorem getJointLocalTransform_translation lm joint_pose :
  regular (x2 (translation joint_pose)) = true ->
  regular (y2 (translation joint_pose)) = true ->
  col3 (getJointLocalTransform lm joint_pose)
  = Vec4 (x2 (translation joint_pose)) (y2 (translation joint_pose)) fzero fone
  /\ (parent joint_pose = Null ->
      forall g fuel,
      exists m, getJointTransform lm (S fuel) g joint_pose = Some m
                /\ col3 m = Vec4 (x2 (translation joint_pose))
                                 (y2 (translation joint_pose)) fzero fone).
Proof.
  intros Hx Hy.
  assert (E : col3 (getJointLocalTransform lm joint_pose)
              = Vec4 (x2 (translation joint_pose)) (y2 (translation joint_pose))
                     fzero fone).
  { rewrite <- (translate_col3 _ _ Hx Hy). unfold getJointLocalTransform.
    destruct (fneb (rotation joint_pose) (flit 0 1));
      destruct (fneb (scale joint_pose) (flit 1 1)); reflexivity. }
  split; [exact E|].
  intros Ep g fuel. exists (getJointLocalTransform lm joint_pose).
  split; [|exact E]. cbn [getJointTransform]. rewrite Ep. reflexivity.
Qed.

(** Joint 4 of the bind pose. *)
Lemma getJointLocalTransform_translation_witness :
  regular (x2 (translation (joint (pose (poses (initPoses globals_init)) 0) 4))) = true
  /\ regular (y2 (translation (joint (pose (poses (initPoses globals_init)) 0) 4))) = true
  /\ col3 (getJointLocalTransform libm_coarse
             (joint (pose (poses (initPoses globals_init)) 0) 4))
     = Vec4 (dbl 475503) (of_int 0) fzero fone.
Proof.
  assert (H1 : regular (x2 (translation
                 (joint (pose (poses (initPoses globals_init)) 0) 4))) = true)
    by (vm_compute; reflexivity).
  assert (H2 : regular (y2 (translation
                 (joint (pose (poses (initPoses globals_init)) 0) 4))) = true)
    by (vm_compute; reflexivity).
  split; [exact H1|]. split; [exact H2|].
  exact (proj1 (getJointLocalTransform_translation libm_coarse
                  (joint (pose (poses (initPoses globals_init)) 0) 4) H1 H2)).
Defined.

(* ------------------------------------------------------------------ *)
(** * The vertex shader, continued *)

Section CommonTransform.
Local Open Scope Qc_scope.


End CommonTransform.




Section ColourBounds.
Local Open Scope Qc_scope.




End ColourBounds.




(* ------------------------------------------------------------------ *)
(** * The blend factor *)

Section Conversion.

(** Rounding a float of the format returns it. *)
Lemma binary_round_aux_exact s m e :
  valid (S754_finite s m e) = true ->
  binary_round_aux prec emax s (Zpos m) e loc_Exact = S754_finite s m e.
Proof.
  unfold valid. cbn [valid_binary]. unfold bounded.
  rewrite andb_true_iff, canonical_iff. intros [C Hb].
  unfold binary_round_aux, shr_fexp. rewrite C, Z.sub_diag.
  cbn [shr shr_record_of_loc shr_m loc_of_shr_record round_nearest_even].
  rewrite C, Z.sub_diag. cbn [shr shr_m]. rewrite Hb. reflexivity.
Qed.

(** An [int] between 1 and [2^24 - 1] converts to a positive finite float. *)
Lemma of_int_small w :
  0 < w < 2 ^ 24 -> exists m e, of_int w = S754_finite false m e.
Proof.
  intros [H0 H1]. destruct w as [|p|p]; try lia.
  unfold of_int. cbn [binary_normalize]. unfold binary_round, shl_align.
  pose proof (digits2_pos_spec p) as [Hl Hu].
  assert (Hd : Zpos (digits2_pos p) <= 24).
  { destruct (Z_le_gt_dec (Zpos (digits2_pos p)) 24) as [|Hgt]; [assumption|].
    assert (2 ^ 24 <= 2 ^ (Zpos (digits2_pos p) - 1)) by (apply Z.pow_le_mono_r; lia).
    lia. }
  destruct (fexp prec emax (Z.pos (digits2_pos p) + 0) - 0) as [|q|q] eqn:E.
  - eexists _, _. apply binary_round_aux_exact.
    unfold valid. cbn [valid_binary]. unfold bounded, canonical_mantissa.
    apply andb_true_iff. split; [apply Z.eqb_eq|apply Z.leb_le];
      unfold fexp, emin, prec, emax in *; lia.
  - unfold fexp, emin, prec, emax in E. lia.
  - eexists _, _. apply binary_round_aux_exact.
    unfold valid. cbn [valid_binary]. unfold bounded, canonical_mantissa.
    rewrite digits2_pos_iter_xO.
    apply andb_true_iff. split; [apply Z.eqb_eq|apply Z.leb_le];
      unfold fexp, emin, prec, emax in *; lia.
Qed.

Lemma new_location_zero m : new_location m 0 = loc_Exact.
Proof.
  unfold new_location, new_location_even, new_location_odd.
  destruct (Z.even m); reflexivity.
Qed.

(** A finite float divided by itself is [1.0f]. *)
Lemma fdiv_self s m e :
  fdiv (S754_finite s m e) (S754_finite s m e) = fone.
Proof.
  unfold fdiv. cbn [SFdiv]. unfold SFdiv_core_binary.
  rewrite xorb_nilpotent.
  replace (Zdigits2 (Z.pos m) + e - (Zdigits2 (Z.pos m) + e)) with 0 by lia.
  rewrite Z.sub_diag.
  change (Z.min (fexp prec emax 0) 0) with (-24).
  change (0 - -24) with 24.
  rewrite Z.shiftl_mul_pow2 by lia.
  assert (E : Z.div_eucl (Z.pos m * 2 ^ 24) (Z.pos m) = (2 ^ 24, 0)).
  { pose proof (Z.div_eucl_eq (Z.pos m * 2 ^ 24) (Z.pos m) ltac:(lia)) as Heq.
    pose proof (Z.mod_pos_bound (Z.pos m * 2 ^ 24) (Z.pos m) ltac:(lia)) as Hb.
    unfold Z.modulo in Hb.
    destruct (Z.div_eucl (Z.pos m * 2 ^ 24) (Z.pos m)) as [q r].
    assert (q = 2 ^ 24) by nia. subst q. f_equal. lia. }
  rewrite E, new_location_zero. reflexivity.
Qed.

Lemma blend_factor_left w h st :
  0 < w < 2 ^ 24 -> blend_factor 0 (reshape w h st) = fzero.
Proof.
  intros Hw. unfold blend_factor. cbn [viewport reshape fst].
  destruct (of_int_small w Hw) as (m & e & ->). reflexivity.
Qed.

Lemma blend_factor_right w h st :
  0 < w < 2 ^ 24 -> blend_factor w (reshape w h st) = fone.
Proof.
  intros Hw. unfold blend_factor. cbn [viewport reshape fst].
  destruct (of_int_small w Hw) as (m & e & ->). apply fdiv_self.
Qed.

End Conversion.

(** With a viewport of width [0 < w < 2^24] and source poses whose
    interpolated fields are finite floats other than [-0.0f], a pointer at
    the left edge ([x = 0]) makes [current_pose] the left-hand pose and a
    pointer at [x = w] makes it the right-hand pose: colour, rotation, scale
    and translation of every joint are those of the endpoint pose, bit for
    bit. *)
Theorem mouseMove_at_window_edges w h y st j :
  0 < w < 2 ^ 24 ->
  globals_wf st = true ->
  Pose_regular (pose (poses st) (left_pose st)) = true ->
  Pose_regular (pose (poses st) (right_pose st)) = true ->
  (j < JOINT_COUNT)%nat ->
  same_interpolated_fields
    (joint (current_pose (mouseMove 0 y (reshape w h st))) j)
    (joint (pose (poses st) (left_pose st)) j)
  /\ same_interpolated_fields
       (joint (current_pose (mouseMove w y (reshape w h st))) j)
       (joint (pose (poses st) (right_pose st)) j).
Proof.
  intros Hw Hwf HA HB Hj.
  pose proof (globals_wf_left st Hwf) as HwA.
  pose proof (globals_wf_right st Hwf) as HwB.
  pose proof (Pose_regular_joint _ j HwA HA Hj) as Ra.
  pose proof (Pose_regular_joint _ j HwB HB Hj) as Rb.
  unfold mouseMove.
  rewrite (blend_factor_left w h st Hw), (blend_factor_right w h st Hw).
  rewrite !blend_joint by assumption.
  cbn [poses left_pose right_pose reshape]. split.
  - eapply blended_joint_at_zero; [reflexivity|reflexivity|exact Ra|exact Rb].
  - eapply blended_joint_at_one; [reflexivity|reflexivity|exact Ra|exact Rb].
Qed.

(** Joint 4 with the poses of [initPoses] in a window 800 pixels wide. *)
Lemma mouseMove_at_window_edges_witness :
  0 < 800 < 2 ^ 24
  /\ globals_wf (initPoses globals_init) = true
  /\ Pose_regular (pose (poses (initPoses globals_init))
                        (left_pose (initPoses globals_init))) = true
  /\ Pose_regular (pose (poses (initPoses globals_init))
                        (right_pose (initPoses globals_init))) = true
  /\ (4 < JOINT_COUNT)%nat
  /\ same_interpolated_fields
       (joint (current_pose (mouseMove 0 300 (reshape 800 800 (initPoses globals_init)))) 4)
       (joint (pose (poses (initPoses globals_init))
                    (left_pose (initPoses globals_init))) 4)
  /\ same_interpolated_fields
       (joint (current_pose (mouseMove 800 300 (reshape 800 800 (initPoses globals_init)))) 4)
       (joint (pose (poses (initPoses globals_init))
                    (right_pose (initPoses globals_init))) 4).
Proof.
  assert (H0 : 0 < 800 < 2 ^ 24) by (vm_compute; split; reflexivity).
  assert (H1 : globals_wf (initPoses globals_init) = true) by (vm_compute; reflexivity).
  assert (H2 : Pose_regular (pose (poses (initPoses globals_init))
                 (left_pose (initPoses globals_init))) = true)
    by (vm_compute; reflexivity).
  assert (H3 : Pose_regular (pose (poses (initPoses globals_init))
                 (right_pose (initPoses globals_init))) = true)
    by (vm_compute; reflexivity).
  assert (H4 : (4 < JOINT_COUNT)%nat) by (unfold JOINT_COUNT; lia).
  split; [exact H0|]. split; [exact H1|]. split; [exact H2|]. split; [exact H3|].
  split; [exact H4|].
  exact (mouseMove_at_window_edges 800 800 300 (initPoses globals_init) 4
           H0 H1 H2 H3 H4).
Defined.

Section Quotient.


Lemma Zdigits2_lt_pow m k : 0 < m -> m < 2 ^ k -> 0 <= k -> Zdigits2 m <= k.
Proof.
  intros Hm Hk H0. destruct (Zdigits2_spec m Hm) as [Hd [Hl _]].
  destruct (Z_le_gt_dec (Zdigits2 m) k) as [|Hgt]; [assumption|].
  assert (2 ^ k <= 2 ^ (Zdigits2 m - 1)) by (apply Z.pow_le_mono_r; lia). lia.
Qed.



Lemma Zpos_iter_xO n : forall p, Zpos (Pos.iter xO p n) = Zpos p * 2 ^ Zpos n.
Proof.
  induction n as [|n IH] using Pos.peano_ind; intros p.
  - cbn. lia.
  - rewrite Pos.iter_succ, Pos2Z.inj_xO, IH, Pos2Z.inj_succ, Z.pow_succ_r by lia. ring.
Qed.

(** The float an [int] of magnitude between 1 and [2^24 - 1] converts to:
    the integer itself, with a mantissa of 24 digits. *)
Lemma binary_round_small s p :
  Zpos p < 2 ^ 24 ->
  exists m,
    binary_round prec emax s p 0 = S754_finite s m (Zdigits2 (Zpos p) - 24)
    /\ Zpos m = Zpos p * 2 ^ (24 - Zdigits2 (Zpos p))
    /\ Zdigits2 (Zpos m) = 24.
Proof.
  intros H1. cbn [Zdigits2]. unfold binary_round, shl_align.
  pose proof (digits2_pos_spec p) as [Hl Hu].
  assert (Hd : Zpos (digits2_pos p) <= 24).
  { apply (Zdigits2_lt_pow (Zpos p) 24); lia. }
  destruct (fexp prec emax (Z.pos (digits2_pos p) + 0) - 0) as [|q|q] eqn:E.
  - assert (D : Zpos (digits2_pos p) = 24) by (unfold fexp, emin, prec, emax in E; lia).
    exists p. rewrite D. split; [|split; [cbn; lia|reflexivity]].
    apply binary_round_aux_exact.
    unfold valid. cbn [valid_binary]. unfold bounded, canonical_mantissa.
    apply andb_true_iff. split; [apply Z.eqb_eq|apply Z.leb_le];
      unfold fexp, emin, prec, emax in *; lia.
  - unfold fexp, emin, prec, emax in E. lia.
  - assert (D : Zpos q = 24 - Zpos (digits2_pos p))
      by (unfold fexp, emin, prec, emax in E; lia).
    exists (Pos.iter xO p q). split; [|split].
    + replace (Z.pos (digits2_pos p) - 24)
        with (fexp prec emax (Z.pos (digits2_pos p) + 0))
        by (unfold fexp, emin, prec, emax in *; lia).
      apply binary_round_aux_exact.
      unfold valid. cbn [valid_binary]. unfold bounded, canonical_mantissa.
      rewrite digits2_pos_iter_xO.
      apply andb_true_iff. split; [apply Z.eqb_eq|apply Z.leb_le];
        unfold fexp, emin, prec, emax in *; lia.
    + rewrite Zpos_iter_xO, D. reflexivity.
    + cbn [Zdigits2]. rewrite digits2_pos_iter_xO. lia.
Qed.

Lemma of_int_small_value w :
  0 < w < 2 ^ 24 ->
  exists m,
    of_int w = S754_finite false m (Zdigits2 w - 24)
    /\ Zpos m = w * 2 ^ (24 - Zdigits2 w)
    /\ Zdigits2 (Zpos m) = 24.
Proof.
  intros [H0 H1]. destruct w as [|p|p]; try lia.
  exact (binary_round_small false p H1).
Qed.

Lemma of_int_small_negative x :
  - 2 ^ 24 < x < 0 ->
  exists m e, of_int x = S754_finite true m e /\ Zdigits2 (Zpos m) = 24
              /\ -23 <= e <= 0.
Proof.
  intros [H0 H1]. destruct x as [|p|p]; try lia.
  destruct (binary_round_small true p ltac:(lia)) as (m & E & _ & D).
  exists m, (Zdigits2 (Z.pos p) - 24). split; [exact E|]. split; [exact D|].
  destruct (Zdigits2_spec (Zpos p) ltac:(lia)) as [Hd _].
  pose proof (Zdigits2_lt_pow (Zpos p) 24 ltac:(lia) ltac:(lia) ltac:(lia)). lia.
Qed.

End Quotient.

Section UnitInterval.


End UnitInterval.

Section Negative.



End Negative.



Section ZeroWidth.

Lemma fmul_nan_r a : fmul a S754_nan = S754_nan.
Proof. destruct a; reflexivity. Qed.

Lemma blend_factor_zero_width x st :
  fst (viewport st) = 0 ->
  (x = 0 -> blend_factor x st = S754_nan)
  /\ (0 < x < 2 ^ 24 -> blend_factor x st = S754_infinity false)
  /\ (- 2 ^ 24 < x < 0 -> blend_factor x st = S754_infinity true).
Proof.
  intros Hv. unfold blend_factor. rewrite Hv. split; [|split].
  - intros ->. reflexivity.
  - intros Hx. destruct (of_int_small_value x Hx) as (m & -> & _). reflexivity.
  - intros Hx. destruct (of_int_small_negative x Hx) as (m & e & -> & _). reflexivity.
Qed.

End ZeroWidth.

(** [viewport] is zero until the first resize event.  A pointer-move event
    that reads a viewport of width 0 divides by zero: the blend factor is
    NaN for [x = 0] and an infinity of the sign of [x] otherwise; for
    [x = 0] every interpolated field of every joint of [current_pose]
    becomes NaN, whatever the poses hold. *)
Theorem mouseMove_zero_width x y st j :
  fst (viewport st) = 0 ->
  globals_wf st = true ->
  (j < JOINT_COUNT)%nat ->
  (x = 0 ->
   same_interpolated_fields (joint (current_pose (mouseMove x y st)) j)
     {| parent := Null;
        color := Vec4 S754_nan S754_nan S754_nan S754_nan;
        translation := Vec2 S754_nan S754_nan;
        rotation := S754_nan;
        scale := S754_nan |})
  /\ (0 < x < 2 ^ 24 -> blend_factor x st = S754_infinity false)
  /\ (- 2 ^ 24 < x < 0 -> blend_factor x st = S754_infinity true).
Proof.
  intros Hv Hwf Hj.
  destruct (blend_factor_zero_width x st Hv) as (F0 & Fp & Fn).
  split; [|split; assumption].
  intros Hx. unfold mouseMove. rewrite (F0 Hx).
  rewrite blend_joint by (try apply globals_wf_left; assumption).
  change (fsub (of_int 1) S754_nan) with S754_nan.
  unfold same_interpolated_fields, blended_joint.
  cbn [color rotation scale translation].
  unfold Glm.v4_add, Glm.v4_scale, Glm.v2_add, Glm.v2_scale.
  cbn [vx vy vz vw x2 y2 sadd smul Scalar_float].
  rewrite !fmul_nan_r.
  split; [|split; [|split]]; reflexivity.
Qed.

(** The first pointer-move event arriving before any resize. *)
Lemma mouseMove_zero_width_witness :
  fst (viewport (initPoses globals_init)) = 0
  /\ globals_wf (initPoses globals_init) = true
  /\ (4 < JOINT_COUNT)%nat
  /\ rotation (joint (current_pose (mouseMove 0 300 (initPoses globals_init))) 4)
     = S754_nan.
Proof.
  assert (H1 : fst (viewport (initPoses globals_init)) = 0) by reflexivity.
  assert (H2 : globals_wf (initPoses globals_init) = true) by (vm_compute; reflexivity).
  assert (H3 : (4 < JOINT_COUNT)%nat) by (unfold JOINT_COUNT; lia).
  split; [exact H1|]. split; [exact H2|]. split; [exact H3|].
  exact (proj1 (proj2 (proj1 (mouseMove_zero_width 0 300 (initPoses globals_init) 4
                                H1 H2 H3) eq_refl))).
Defined.

(* ------------------------------------------------------------------ *)
(** * The keyboard *)

Section Keyboard.

Lemma keyboard_agrees key x y u :
  polygon_mode_agrees u = true -> polygon_mode_agrees (keyboard key x y u) = true.
Proof.
  intros H. unfold keyboard.
  destruct (key =? key_escape); [exact H|].
  destruct (key =? key_w).
  { unfold polygon_mode_agrees. cbn. destruct (wireframe u); reflexivity. }
  destruct (key =? key_j); [exact H|].
  destruct (key =? key_h); exact H.
Qed.

Lemma keyboard_step key x y u :
  wireframe (keyboard key x y u) = xorb (wireframe u) (key =? key_w)
  /\ draw_joints (keyboard key x y u) = xorb (draw_joints u) (key =? key_j)
  /\ help_messages (keyboard key x y u)
     = (help_messages u + if (key =? key_h)%Z then 1 else 0)%nat
  /\ redisplays_posted (keyboard key x y u)
     = (redisplays_posted u + if (key =? key_escape)%Z then 0 else 1)%nat
  /\ main_loop_left (keyboard key x y u)
     = main_loop_left u || (key =? key_escape).
Proof.
  unfold keyboard.
  destruct (key =? key_escape) eqn:Ee.
  { apply Z.eqb_eq in Ee. subst key. cbn.
    rewrite !xorb_false_r, !Nat.add_0_r, orb_true_r. repeat split; reflexivity. }
  destruct (key =? key_w) eqn:Ew.
  { apply Z.eqb_eq in Ew. subst key. cbn.
    rewrite xorb_true_r, xorb_false_r, Nat.add_0_r, Nat.add_1_r, orb_false_r.
    repeat split; reflexivity. }
  destruct (key =? key_j) eqn:Ej.
  { apply Z.eqb_eq in Ej. subst key. cbn.
    rewrite xorb_true_r, xorb_false_r, Nat.add_0_r, Nat.add_1_r, orb_false_r.
    repeat split; reflexivity. }
  destruct (key =? key_h) eqn:Eh; cbn;
    rewrite !xorb_false_r, ?Nat.add_0_r, !Nat.add_1_r, orb_false_r;
    repeat split; reflexivity.
Qed.

Lemma presses_cons key e keys :
  presses key (e :: keys)
  = ((if (fst (fst e) =? key)%Z then 1 else 0) + presses key keys)%nat.
Proof.
  unfold presses. cbn [filter]. destruct (fst (fst e) =? key); reflexivity.
Qed.

End Keyboard.

(** Whatever keys are pressed, the polygon mode of the context follows
    [wireframe]: if they agree before a sequence of key presses (as they do
    once [initGL] has run), they agree after it. *)
Theorem keyboard_polygon_mode_follows_wireframe keys u :
  polygon_mode_agrees u = true ->
  polygon_mode_agrees (keyboard_events keys u) = true.
Proof.
  unfold keyboard_events. revert u.
  induction keys as [|[[key x] y] keys IH]; intros u H; cbn [fold_left]; [exact H|].
  apply IH. cbn [fst snd]. apply keyboard_agrees, H.
Qed.

(** From the start of the main loop: [w], [j], [W], [w], [w]. *)
Lemma keyboard_polygon_mode_follows_wireframe_witness :
  polygon_mode_agrees ui_init = true
  /\ polygon_mode_agrees
       (keyboard_events [(119, 10, 20); (106, 0, 0); (87, 5, 5);
                         (119, 1, 1); (119, 2, 2)] ui_init) = true.
Proof.
  assert (H : polygon_mode_agrees ui_init = true) by reflexivity.
  split; [exact H|].
  exact (keyboard_polygon_mode_follows_wireframe
           [(119, 10, 20); (106, 0, 0); (87, 5, 5);
            (119, 1, 1); (119, 2, 2)] ui_init H).
Defined.

(** The effect of a sequence of key presses depends on the counts of four
    key codes only: [wireframe] is flipped when the number of [w] is odd,
    [draw_joints] when the number of [j] is odd, one help message is written
    per [h], every key but Esc posts one redisplay, and the main loop is
    left once Esc has been pressed.  The codes are those of the lower-case
    letters: the upper-case letters that the help message lists are keys
    like any other. *)
Theorem keyboard_events_count keys u :
  wireframe (keyboard_events keys u)
  = xorb (wireframe u) (Nat.odd (presses key_w keys))
  /\ draw_joints (keyboard_events keys u)
     = xorb (draw_joints u) (Nat.odd (presses key_j keys))
  /\ help_messages (keyboard_events keys u)
     = (help_messages u + presses key_h keys)%nat
  /\ redisplays_posted (keyboard_events keys u)
     = (redisplays_posted u + (List.length keys - presses key_escape keys))%nat
  /\ main_loop_left (keyboard_events keys u)
     = main_loop_left u || Nat.ltb 0 (presses key_escape keys).
Proof.
  unfold keyboard_events. revert u.
  induction keys as [|[[key x] y] keys IH]; intros u; cbn [fold_left].
  - cbn. rewrite !xorb_false_r, !Nat.add_0_r, orb_false_r. repeat split; reflexivity.
  - destruct (IH (keyboard key x y u)) as (Hw & Hj & Hh & Hr & Hl).
    destruct (keyboard_step key x y u) as (Sw & Sj & Sh & Sr & Sl).
    cbn [fst snd]. rewrite Hw, Hj, Hh, Hr, Hl, Sw, Sj, Sh, Sr, Sl.
    rewrite !presses_cons. cbn [fst List.length].
    assert (Hle : (presses key_escape keys <= List.length keys)%nat)
      by (unfold presses; apply filter_length_le).
    split; [|split; [|split; [|split]]].
    + destruct (key =? key_w); cbn [Nat.add].
      * rewrite Nat.odd_succ, <- Nat.negb_odd.
        destruct (wireframe u), (Nat.odd (presses key_w keys)); reflexivity.
      * rewrite xorb_false_r. reflexivity.
    + destruct (key =? key_j); cbn [Nat.add].
      * rewrite Nat.odd_succ, <- Nat.negb_odd.
        destruct (draw_joints u), (Nat.odd (presses key_j keys)); reflexivity.
      * rewrite xorb_false_r. reflexivity.
    + destruct (key =? key_h); lia.
    + destruct (key =? key_escape); lia.
    + destruct (key =? key_escape); cbn [Nat.add].
      * rewrite !orb_true_r. reflexivity.
      * rewrite orb_false_r. reflexivity.
Qed.

(* ------------------------------------------------------------------ *)
(** * The mesh and its OpenGL objects *)

(** The uninitialised local [v] of [initMeshes] reaches the vertex buffer at
    position 0 only: every authored vertex has all its fields assigned
    before it is pushed, so the vertices from position 1 on, the index
    buffer and the vertices the draw call fetches are the same whatever the
    stack held. *)
Theorem initMeshes_uninitialised_vertex garbage garbage' :
  hd_error (vertices (initMeshes garbage)) = Some garbage
  /\ tl (vertices (initMeshes garbage)) = tl (vertices (initMeshes garbage'))
  /\ indices (initMeshes garbage) = indices (initMeshes garbage')
  /\ drawn_vertices (initMeshes garbage) = drawn_vertices (initMeshes garbage')
  /\ Forall (fun v => v <> None) (drawn_vertices (initMeshes garbage)).
Proof.
  split; [reflexivity|]. split; [vm_compute; reflexivity|].
  split; [vm_compute; reflexivity|]. split; [vm_compute; reflexivity|].
  apply Forall_forall. intros v Hv.
  assert (E : forallb (fun v => match v with Some _ => true | None => false end)
                (drawn_vertices (initMeshes garbage)) = true)
    by (vm_compute; reflexivity).
  rewrite forallb_forall in E. specialize (E v Hv).
  destruct v; [discriminate|discriminate E].
Qed.

Section VertexFetch.

Lemma skipn_Vertex_cells n : forall vs v,
  nth_error vs n = Some v ->
  skipn (8 * n) (flat_map Vertex_cells vs)
  = Vertex_cells v ++ flat_map Vertex_cells (skipn (S n) vs).
Proof.
  induction n as [|n IH]; intros [|a vs] v H; try discriminate.
  - injection H as ->. reflexivity.
  - cbn [nth_error] in H. replace (8 * S n)%nat with (8 + 8 * n)%nat by lia.
    cbn [flat_map]. change (Vertex_cells a ++ flat_map Vertex_cells vs)
      with (Cfloat (x2 (position a)) :: Cfloat (y2 (position a))
            :: Cuint (a0 (joint_indices a)) :: Cuint (a1 (joint_indices a))
            :: Cuint (a2 (joint_indices a))
            :: Cfloat (a0 (joint_weights a)) :: Cfloat (a1 (joint_weights a))
            :: Cfloat (a2 (joint_weights a)) :: flat_map Vertex_cells vs).
    cbn [Nat.add skipn]. exact (IH vs v H).
Qed.

Lemma read_member vs n v c k :
  nth_error vs n = Some v ->
  (c + k <= 8)%nat ->
  read_cells (flat_map Vertex_cells vs)
    (Z.of_nat c * sizeof_cell + Z.of_nat n * sizeof_Vertex) k
  = Some (firstn k (skipn c (Vertex_cells v))).
Proof.
  intros Hn Hck. unfold read_cells, sizeof_Vertex, sizeof_cell.
  replace (Z.of_nat c * 4 + Z.of_nat n * (8 * 4))
    with (Z.of_nat (c + 8 * n) * 4) by lia.
  rewrite Z.mod_mul, Z.div_mul by lia. rewrite Nat2Z.id.
  replace (0 <=? Z.of_nat (c + 8 * n) * 4) with true by (symmetry; apply Z.leb_le; lia).
  cbn [andb Z.eqb].
  rewrite <- skipn_skipn, (skipn_Vertex_cells n vs v Hn).
  assert (E : firstn k (skipn c (Vertex_cells v ++ flat_map Vertex_cells (skipn (S n) vs)))
              = firstn k (skipn c (Vertex_cells v))).
  { rewrite skipn_app, firstn_app.
    replace (k - List.length (skipn c (Vertex_cells v)))%nat with 0%nat
      by (rewrite length_skipn; cbn [Vertex_cells List.length]; lia).
    cbn [firstn]. apply app_nil_r. }
  rewrite E.
  replace (List.length (firstn k (skipn c (Vertex_cells v))) =? k)%nat with true;
    [reflexivity|].
  symmetry. apply Nat.eqb_eq. rewrite length_firstn, length_skipn.
  cbn [Vertex_cells List.length]. lia.
Qed.

End VertexFetch.

(** The attribute pointers that [uploadMesh] sets up deliver each vertex to
    the vertex shader as it was authored: for every mesh and every vertex
    [v] in it, the seven inputs of the shader (by [location], with the
    integer attributes passed as integers) are the position, the three
    joint indices and the three joint weights of [v]; and the index buffer
    holds the indices of the mesh. *)
Theorem uploadMesh_delivers_vertex (m : SkeletalMesh) (n : nat) (v : Vertex) :
  nth_error (vertices m) n = Some v ->
  shader_inputs (uploadMesh m) n
  = Some {| Shader.position := position v;
            Shader.joint_0_index := Z.to_nat (a0 (joint_indices v));
            Shader.joint_1_index := Z.to_nat (a1 (joint_indices v));
            Shader.joint_2_index := Z.to_nat (a2 (joint_indices v));
            Shader.joint_0_weight := a0 (joint_weights v);
            Shader.joint_1_weight := a1 (joint_weights v);
            Shader.joint_2_weight := a2 (joint_weights v) |}
  /\ element_array_buffer (uploadMesh m) = indices m.
Proof.
  intros Hn. split; [|reflexivity].
  unfold shader_inputs, fetch, uploadMesh.
  cbn [attribute_arrays array_buffer nth_error attr_enabled attr_integer
       attr_pointer attr_stride attr_size member_offset].
  change 0 with (Z.of_nat 0 * sizeof_cell) at 1.
  change ((2 + Z.of_nat 0) * sizeof_cell) with (Z.of_nat 2 * sizeof_cell).
  change ((2 + Z.of_nat 1) * sizeof_cell) with (Z.of_nat 3 * sizeof_cell).
  change ((2 + Z.of_nat 2) * sizeof_cell) with (Z.of_nat 4 * sizeof_cell).
  change ((5 + Z.of_nat 0) * sizeof_cell) with (Z.of_nat 5 * sizeof_cell).
  change ((5 + Z.of_nat 1) * sizeof_cell) with (Z.of_nat 6 * sizeof_cell).
  change ((5 + Z.of_nat 2) * sizeof_cell) with (Z.of_nat 7 * sizeof_cell).
  rewrite !(read_member (vertices m) n v) by (try exact Hn; lia).
  destruct v as [[px py] [i0 i1 i2] [w0 w1 w2]]. reflexivity.
Qed.

(** Vertex 3 of the mesh. *)
Lemma uploadMesh_delivers_vertex_witness :
  nth_error (vertices (initMeshes Vertex_zero)) 3
  = Some {| position := Vec2 (dbl (-42311)) (dbl 784992);
            joint_indices := Arr3 1 4 0;
            joint_weights := Arr3 (flit 2 10) (flit 8 10) (flit 0 10) |}
  /\ shader_inputs (uploadMesh (initMeshes Vertex_zero)) 3
     = Some {| Shader.position := Vec2 (dbl (-42311)) (dbl 784992);
               Shader.joint_0_index := 1;
               Shader.joint_1_index := 4;
               Shader.joint_2_index := 0;
               Shader.joint_0_weight := flit 2 10;
               Shader.joint_1_weight := flit 8 10;
               Shader.joint_2_weight := flit 0 10 |}.
Proof.
  assert (H : nth_error (vertices (initMeshes Vertex_zero)) 3
              = Some {| position := Vec2 (dbl (-42311)) (dbl 784992);
                        joint_indices := Arr3 1 4 0;
                        joint_weights := Arr3 (flit 2 10) (flit 8 10) (flit 0 10) |})
    by (vm_compute; reflexivity).
  split; [exact H|].
  exact (proj1 (uploadMesh_delivers_vertex (initMeshes Vertex_zero) 3 _ H)).
Defined.

Section Objects.

Lemma unused_spec name l : unused name l = true -> name <> 0 /\ ~ In name l.
Proof.
  unfold unused. rewrite andb_true_iff, !negb_true_iff. intros [H0 Hl]. split.
  - apply Z.eqb_neq, H0.
  - intros Hin.
    assert (E : existsb (Z.eqb name) l = true)
      by (apply existsb_exists; exists name; split; [exact Hin|apply Z.eqb_refl]).
    rewrite E in Hl. discriminate.
Qed.

Lemma remove_head name l :
  ~ In name l -> remove Z.eq_dec name (name :: l) = l.
Proof.
  intros H. cbn [remove]. destruct (Z.eq_dec name name) as [_|N]; [|contradiction].
  apply notin_remove, H.
Qed.

Lemma remove_second a b l :
  a <> b -> ~ In b l -> remove Z.eq_dec b (a :: b :: l) = a :: l.
Proof.
  intros Hab Hb. cbn [remove].
  destruct (Z.eq_dec b a) as [E|_]; [congruence|].
  destruct (Z.eq_dec b b) as [_|N]; [|contradiction].
  rewrite notin_remove by exact Hb. reflexivity.
Qed.

(** What the six promises of [names_fresh] say. *)
Lemma names_fresh_spec nm o :
  names_fresh nm o = true ->
  (~ In (vert_shader_id nm) (gl_shaders o)
   /\ ~ In (frag_shader_id nm) (gl_shaders o)
   /\ frag_shader_id nm <> vert_shader_id nm)
  /\ (program_id nm <> 0 /\ ~ In (program_id nm) (gl_programs o))
  /\ (~ In (vbo_id_ nm) (gl_buffers o)
      /\ ~ In (ibo_id_ nm) (gl_buffers o)
      /\ ibo_id_ nm <> vbo_id_ nm).
Proof.
  unfold names_fresh. rewrite !andb_true_iff.
  intros [[[[[Hv Hf] Hp] _] Hb] Hi].
  apply unused_spec in Hv, Hf, Hp, Hb, Hi.
  destruct Hv as [_ Hv], Hf as [_ Hf], Hp as [Hp0 Hp], Hb as [_ Hb], Hi as [_ Hi].
  cbn [In] in Hf, Hp, Hi. rewrite in_app_iff in Hv, Hf, Hp.
  repeat split; try tauto; intros E; [apply Hf|apply Hi]; left; congruence.
Qed.

Lemma SkeletalMesh_lifetime nm r :
  names_fresh nm (objects r) = true ->
  objects (SkeletalMesh_delete (SkeletalMesh_new nm r))
  = {| gl_shaders := gl_shaders (objects r);
       gl_programs := gl_programs (objects r);
       gl_vertex_arrays := vao_id_ nm :: gl_vertex_arrays (objects r);
       gl_buffers := remove Z.eq_dec (vao_id_ nm) (gl_buffers (objects r)) |}.
Proof.
  intros Hf. destruct (names_fresh_spec nm _ Hf) as (_ & _ & Hb & Hi & Hne).
  unfold SkeletalMesh_delete, SkeletalMesh_new. cbn [mesh_ids objects].
  unfold glDeleteBuffers, glGenBuffers, glGenVertexArrays.
  cbn [gl_shaders gl_programs gl_vertex_arrays gl_buffers]. f_equal.
  rewrite (remove_remove_comm Z.eq_dec _ (vbo_id_ nm) (vao_id_ nm)).
  rewrite (remove_remove_comm Z.eq_dec _ (ibo_id_ nm) (vao_id_ nm)).
  rewrite (remove_second (ibo_id_ nm) (vbo_id_ nm)) by assumption.
  rewrite remove_head by assumption. reflexivity.
Qed.

End Objects.

(** The destructor of [SkeletalMesh] passes the name of the vertex array to
    [glDeleteBuffers]: after [new] and [delete] the vertex array is still in
    use, the two buffers of the mesh are released, and a buffer that other
    code owns under the number of the vertex array is deleted with them. *)
Theorem SkeletalMesh_delete_keeps_vertex_array nm r :
  names_fresh nm (objects r) = true ->
  let r' := SkeletalMesh_delete (SkeletalMesh_new nm r) in
  In (vao_id_ nm) (gl_vertex_arrays (objects r'))
  /\ gl_vertex_arrays (objects r') = vao_id_ nm :: gl_vertex_arrays (objects r)
  /\ ~ In (vbo_id_ nm) (gl_buffers (objects r'))
  /\ ~ In (ibo_id_ nm) (gl_buffers (objects r'))
  /\ ~ In (vao_id_ nm) (gl_buffers (objects r'))
  /\ (forall name, name <> vao_id_ nm ->
        In name (gl_buffers (objects r)) -> In name (gl_buffers (objects r'))).
Proof.
  intros Hf r'. subst r'. rewrite (SkeletalMesh_lifetime nm r Hf).
  destruct (names_fresh_spec nm _ Hf) as (_ & _ & Hb & Hi & Hne).
  cbn [gl_vertex_arrays gl_buffers objects].
  split; [left; reflexivity|]. split; [reflexivity|].
  split; [intros H; apply in_remove in H; tauto|].
  split; [intros H; apply in_remove in H; tauto|].
  split; [apply remove_In|].
  intros name Hn Hin. apply in_in_remove; assumption.
Qed.

(** A context that holds one buffer, numbered 7, before the mesh is
    created. *)
Lemma SkeletalMesh_delete_keeps_vertex_array_witness :
  names_fresh gl_names_from_1
    {| gl_shaders := []; gl_programs := []; gl_vertex_arrays := [];
       gl_buffers := [7] |} = true
  /\ objects (SkeletalMesh_delete (SkeletalMesh_new gl_names_from_1
       {| objects := {| gl_shaders := []; gl_programs := [];
                        gl_vertex_arrays := []; gl_buffers := [7] |};
          shader_program_id := 0; mesh_ids := None |}))
     = {| gl_shaders := []; gl_programs := []; gl_vertex_arrays := [1];
          gl_buffers := [7] |}
  /\ In 1 (gl_vertex_arrays (objects (SkeletalMesh_delete
       (SkeletalMesh_new gl_names_from_1
          {| objects := {| gl_shaders := []; gl_programs := [];
                           gl_vertex_arrays := []; gl_buffers := [7] |};
             shader_program_id := 0; mesh_ids := None |})))).
Proof.
  assert (H : names_fresh gl_names_from_1
                {| gl_shaders := []; gl_programs := []; gl_vertex_arrays := [];
                   gl_buffers := [7] |} = true) by reflexivity.
  split; [exact H|]. split; [vm_compute; reflexivity|].
  exact (proj1 (SkeletalMesh_delete_keeps_vertex_array gl_names_from_1
                  {| objects := {| gl_shaders := []; gl_programs := [];
                                   gl_vertex_arrays := []; gl_buffers := [7] |};
                     shader_program_id := 0; mesh_ids := None |} H)).
Defined.


